(** * githubanalyticsProject: the fetch / aggregate blocks of [blocks.py]

    A shallow embedding of the helpers and of the two analytics blocks of
    [blocks.py] ([_parse_link_last_page], [_safe_str], [_clamp_int],
    [_traffic_total_from_series], [parse_repo_slug], [GitHubFetchBlock.execute],
    [GitHubAggregateBlock.execute]), of the HTTP client as the blocks see it,
    and of the fetch-then-aggregate run of [run_cli], with the properties
    the specification states about them.

    Conventions.
    - A Python value is a [PyVal]: what [json.loads] produces (None, bool, int,
      float, str, list, dict with str keys).  A dict is an association list in
      insertion order, read and written at the first binding of a key.
    - A [str] is a [string] of 8-bit characters, read as code points below 256
      (HTTP header values are decoded as ISO-8859-1 by the http client).
    - [int(s)] converts a str of at most 4300 digits and raises beyond, the
      interpreter's default limit ([sys.int_info.default_max_str_digits]).
      The ints a [PyVal] holds are within that limit, as are those
      [json.loads] and [int] produce, so that [str(n)] returns.
    - The remote API is a fixed mapping from request URLs to responses.
    - An exception is a value of [PyExc]; code that can raise returns a
      [result]. *)

From Stdlib Require Import ZArith List String Ascii Bool Lia.
From Stdlib Require Import SpecFloat DecimalString Permutation.
From Equations Require Import Equations.
Import ListNotations.

Local Open Scope string_scope.
Local Open Scope Z_scope.
Local Set Warnings "-register-all".

(** ** Python values *)

Inductive PyVal : Type :=
| PNone
| PBool (b : bool)
| PInt (z : Z)
| PFloat (f : spec_float)
| PStr (s : string)
| PList (l : list PyVal)
| PDict (d : list (string * PyVal)).

Definition pydict : Type := list (string * PyVal).

Inductive PyExc : Type :=
| TypeError (msg : string)
| AttributeError (msg : string)
| RuntimeError (msg : string).

(** [str(e)] of an exception with one argument. *)
Definition exc_str (e : PyExc) : string :=
  match e with
  | TypeError m | AttributeError m | RuntimeError m => m
  end.

Inductive result (A : Type) : Type :=
| Ok (a : A)
| Raised (e : PyExc).
Arguments Ok {A} a.
Arguments Raised {A} e.

Definition bind {A B : Type} (r : result A) (k : A -> result B) : result B :=
  match r with
  | Ok a => k a
  | Raised e => Raised e
  end.

Notation "x <- r ;; k" := (bind r (fun x => k))
  (at level 61, r at next level, right associativity).

Definition type_name (v : PyVal) : string :=
  match v with
  | PNone => "NoneType"
  | PBool _ => "bool"
  | PInt _ => "int"
  | PFloat _ => "float"
  | PStr _ => "str"
  | PList _ => "list"
  | PDict _ => "dict"
  end.

Definition is_dict (v : PyVal) : bool :=
  match v with PDict _ => true | _ => false end.

Definition is_list (v : PyVal) : bool :=
  match v with PList _ => true | _ => false end.

Definition float_is_zero (f : spec_float) : bool :=
  match f with S754_zero _ => true | _ => false end.

(** Truth value of a Python value, as tested by [if], [or] and [not]. *)
Definition truthy (v : PyVal) : bool :=
  match v with
  | PNone => false
  | PBool b => b
  | PInt z => negb (z =? 0)
  | PFloat f => negb (float_is_zero f)
  | PStr s => negb (s =? "")%string
  | PList l => match l with [] => false | _ => true end
  | PDict d => match d with [] => false | _ => true end
  end.

(** [a or b] *)
Definition py_or (a b : PyVal) : PyVal := if truthy a then a else b.

(** ** Dictionaries *)

(** [d.get(k)]: the value bound to [k], [None] when there is none. *)
Fixpoint dict_get (d : pydict) (k : string) : PyVal :=
  match d with
  | [] => PNone
  | (k', v) :: d' => if (k' =? k)%string then v else dict_get d' k
  end.

(** [d[k] = v]: overwrite in place, or append a new binding. *)
Fixpoint dict_set (d : pydict) (k : string) (v : PyVal) : pydict :=
  match d with
  | [] => [(k, v)]
  | (k', v') :: d' =>
      if (k' =? k)%string then (k, v) :: d' else (k', v') :: dict_set d' k v
  end.

(** [x.get(k)] on an arbitrary value: an [AttributeError] unless [x] is a dict. *)
Definition py_get (x : PyVal) (k : string) : result PyVal :=
  match x with
  | PDict d => Ok (dict_get d k)
  | _ => Raised (AttributeError
           ("'" ++ type_name x ++ "' object has no attribute 'get'"))
  end.

(** [for r in v]: the items the loop visits, or the [TypeError] of [iter(v)]. *)
Definition py_iter (v : PyVal) : result (list PyVal) :=
  match v with
  | PList l => Ok l
  | PStr s => Ok (map (fun c => PStr (String c "")) (list_ascii_of_string s))
  | PDict d => Ok (map (fun kv => PStr (fst kv)) d)
  | _ => Raised (TypeError ("'" ++ type_name v ++ "' object is not iterable"))
  end.

(** ** Characters and strings *)

Definition code (c : ascii) : nat := nat_of_ascii c.

(** [c.isspace()] for a code point below 256. *)
Definition is_space (c : ascii) : bool :=
  let n := code c in
  ((9 <=? n) && (n <=? 13) || (28 <=? n) && (n <=? 32)
   || (n =? 133) || (n =? 160))%nat.

Definition is_digit (c : ascii) : bool :=
  let n := code c in ((48 <=? n) && (n <=? 57))%nat.

Definition digit_val (c : ascii) : Z := Z.of_nat (code c) - 48.

Fixpoint lstrip_by (p : ascii -> bool) (s : string) : string :=
  match s with
  | String c s' => if p c then lstrip_by p s' else s
  | EmptyString => EmptyString
  end.

Fixpoint rstrip_by (p : ascii -> bool) (s : string) : string :=
  match s with
  | String c s' =>
      match rstrip_by p s' with
      | EmptyString => if p c then EmptyString else String c EmptyString
      | r => String c r
      end
  | EmptyString => EmptyString
  end.

Definition strip_by (p : ascii -> bool) (s : string) : string :=
  rstrip_by p (lstrip_by p s).

(** [s.strip()] *)
Definition strip (s : string) : string := strip_by is_space s.

(** [s.strip("/")] *)
Definition strip_slash (s : string) : string := strip_by (Ascii.eqb "/") s.

(** ** [int(v)] and [_clamp_int] *)

(** The body of a decimal literal after the sign: digits, with single
    underscores allowed between two digits. *)
Fixpoint digits_value (s : string) (acc : Z) (after_digit : bool) : option Z :=
  match s with
  | EmptyString => if after_digit then Some acc else None
  | String c s' =>
      if is_digit c then digits_value s' (10 * acc + digit_val c) true
      else if (c =? "_")%char then
        if after_digit then digits_value s' acc false else None
      else None
  end.

(** The whitespace [int] skips around a literal: below 256, the [isspace]
    characters but the separators 28 to 31. *)
Definition is_int_space (c : ascii) : bool :=
  let n := code c in
  ((9 <=? n) && (n <=? 13) || (n =? 32) || (n =? 133) || (n =? 160))%nat.

(** The most digits [int] converts from a str; a longer literal raises
    [ValueError]. *)
Definition INT_MAX_STR_DIGITS : Z := 4300.

(** The digits of a literal, underscores and sign apart. *)
Fixpoint digit_count (s : string) : Z :=
  match s with
  | EmptyString => 0
  | String c s' => (if is_digit c then 1 else 0) + digit_count s'
  end.

(** [int(s)] for a str: surrounding whitespace, an optional sign, digits,
    no more of them than the limit. *)
Definition int_of_str (s : string) : option Z :=
  let t := strip_by is_int_space s in
  if INT_MAX_STR_DIGITS <? digit_count t then None
  else
    match t with
    | EmptyString => None
    | String c r =>
        if (c =? "+")%char then digits_value r 0 false
        else if (c =? "-")%char then option_map Z.opp (digits_value r 0 false)
        else digits_value (String c r) 0 false
    end.

(** [int(f)] for a float: truncation toward zero; NaN and the infinities raise. *)
Definition int_of_float (f : spec_float) : option Z :=
  match f with
  | S754_zero _ => Some 0
  | S754_infinity _ => None
  | S754_nan => None
  | S754_finite s m e =>
      let a := if 0 <=? e then Z.pos m * 2 ^ e else Z.pos m / 2 ^ (- e) in
      Some (if s then - a else a)
  end.

(** [int(v)]: [None] stands for the exception [int] raises. *)
Definition py_int (v : PyVal) : option Z :=
  match v with
  | PNone => None
  | PBool b => Some (if b then 1 else 0)
  | PInt z => Some z
  | PFloat f => int_of_float f
  | PStr s => int_of_str s
  | PList _ => None
  | PDict _ => None
  end.

Definition _clamp_int (v : PyVal) (lo hi default : Z) : Z :=
  match py_int v with
  | None => default
  | Some x => if x <? lo then lo else if hi <? x then hi else x
  end.

Definition CLAMP_HI : Z := 2000000000.

(** [_clamp_int(v, 0, 2_000_000_000, 0)], the only way the blocks call it. *)
Definition clamp (v : PyVal) : Z := _clamp_int v 0 CLAMP_HI 0.

(** ** [_traffic_total_from_series] *)

(** The loop over the series: entries that are not dicts add nothing. *)
Fixpoint series_sum (series : list PyVal) (s : Z) : Z :=
  match series with
  | [] => s
  | it :: rest =>
      match it with
      | PDict d => series_sum rest (s + clamp (dict_get d "count"))
      | _ => series_sum rest s
      end
  end.

Definition _traffic_total_from_series (resp : PyVal) (series_key : string) : Z :=
  match resp with
  | PDict d =>
      let base := clamp (dict_get d "count") in
      match dict_get d series_key with
      | PList (it :: rest) => Z.max base (series_sum (it :: rest) 0)
      | _ => base
      end
  | _ => 0
  end.

(** ** [GitHubAggregateBlock.execute] *)

(** The [totals] dict: str keys, int values. *)
Definition totals_dict : Type := list (string * Z).

(** [totals[k] += x] *)
Fixpoint totals_add (t : totals_dict) (k : string) (x : Z) : totals_dict :=
  match t with
  | [] => []
  | (k', v) :: t' =>
      if (k' =? k)%string then (k', v + x) :: t' else (k', v) :: totals_add t' k x
  end.

Definition totals_init : totals_dict :=
  [ ("repos", 0); ("stars", 0); ("forks", 0); ("watchers", 0);
    ("open_issues", 0); ("release_asset_downloads_total", 0);
    ("views_14d_total", 0); ("views_14d_unique", 0);
    ("clones_14d_total", 0); ("clones_14d_unique", 0);
    ("commits_total", 0) ].

(** [x if isinstance(x, dict) else {}] *)
Definition dict_or_empty (x : PyVal) : pydict :=
  match x with PDict d => d | _ => [] end.

(** One iteration of the loop over [repos]. *)
Definition aggregate_step (totals : totals_dict) (r : PyVal) : totals_dict :=
  match r with
  | PDict rd =>
      let totals := totals_add totals "repos" 1 in
      let totals := totals_add totals "stars" (clamp (dict_get rd "stars")) in
      let totals := totals_add totals "forks" (clamp (dict_get rd "forks")) in
      let totals := totals_add totals "watchers" (clamp (dict_get rd "watchers")) in
      let totals := totals_add totals "open_issues" (clamp (dict_get rd "open_issues")) in
      let totals := totals_add totals "release_asset_downloads_total"
                      (clamp (dict_get rd "release_asset_downloads_total")) in
      let traffic := dict_or_empty (dict_get rd "traffic") in
      let views := dict_or_empty (dict_get traffic "views") in
      let clones := dict_or_empty (dict_get traffic "clones") in
      let totals := totals_add totals "views_14d_total" (clamp (dict_get views "count")) in
      let totals := totals_add totals "views_14d_unique" (clamp (dict_get views "uniques")) in
      let totals := totals_add totals "clones_14d_total" (clamp (dict_get clones "count")) in
      let totals := totals_add totals "clones_14d_unique" (clamp (dict_get clones "uniques")) in
      totals_add totals "commits_total" (clamp (dict_get rd "commits_total"))
  | _ => totals
  end.

Definition aggregate_loop (repos : list PyVal) : totals_dict :=
  fold_left aggregate_step repos totals_init.

Definition totals_value (t : totals_dict) : PyVal :=
  PDict (map (fun kv => (fst kv, PInt (snd kv))) t).

(** The block: the payload with [totals] set, and the step's metadata. *)
Definition aggregate_execute (payload : PyVal) : result (PyVal * PyVal) :=
  let payload := dict_or_empty payload in
  let repos := py_or (dict_get payload "repos") (PList []) in
  items <- py_iter repos ;;
  let totals := aggregate_loop items in
  Ok (PDict (dict_set payload "totals" (totals_value totals)),
      PDict [("ok", PBool true)]).

(** ** String helpers of the fetch side *)

Definition lower (c : ascii) : ascii :=
  let n := code c in
  if ((65 <=? n) && (n <=? 90))%nat then ascii_of_nat (n + 32) else c.

(** [s[:n]] *)
Fixpoint take (n : nat) (s : string) : string :=
  match n, s with
  | S n', String c s' => String c (take n' s')
  | _, _ => EmptyString
  end.

(** [s[n:]] *)
Fixpoint drop (n : nat) (s : string) : string :=
  match n, s with
  | S n', String _ s' => drop n' s'
  | _, _ => s
  end.

Fixpoint map_chars (f : ascii -> ascii) (s : string) : string :=
  match s with
  | EmptyString => EmptyString
  | String c s' => String (f c) (map_chars f s')
  end.

(** [s.split(sep)] for a one-character separator. *)
Fixpoint split_on (sep : ascii) (s : string) : list string :=
  match s with
  | EmptyString => [EmptyString]
  | String c s' =>
      if (c =? sep)%char then EmptyString :: split_on sep s'
      else match split_on sep s' with
           | p :: ps => String c p :: ps
           | [] => [String c EmptyString]
           end
  end.

(** [sep.join(parts)] *)
Fixpoint join (sep : string) (parts : list string) : string :=
  match parts with
  | [] => EmptyString
  | [p] => p
  | p :: ps => p ++ sep ++ join sep ps
  end.

(** [s.replace(pat, rep)] for a non-empty [pat]: occurrences are replaced
    from the left and do not overlap; [skip] counts the characters of an
    occurrence still to be dropped. *)
Fixpoint replace_from (pat rep s : string) (skip : nat) : string :=
  match s with
  | EmptyString => EmptyString
  | String c s' =>
      match skip with
      | S k => replace_from pat rep s' k
      | O =>
          if prefix pat s
          then rep ++ replace_from pat rep s' (String.length pat - 1)
          else String c (replace_from pat rep s' 0)
      end
  end.

Definition replace (pat rep s : string) : string := replace_from pat rep s 0.

(** [ch in s] *)
Fixpoint contains_char (ch : ascii) (s : string) : bool :=
  match s with
  | EmptyString => false
  | String c s' => (c =? ch)%char || contains_char ch s'
  end.

(** [s.split(ch, 1)] when [ch] occurs in [s]: the text before the first
    occurrence and the text after it. *)
Fixpoint split_once (ch : ascii) (s : string) : string * string :=
  match s with
  | EmptyString => (EmptyString, EmptyString)
  | String c s' =>
      if (c =? ch)%char then (EmptyString, s')
      else let '(a, b) := split_once ch s' in (String c a, b)
  end.

(** [str(n)] of an int, of at most 4300 digits. *)
Definition dec (z : Z) : string := NilZero.string_of_int (Z.to_int z).

(** ** [_parse_link_last_page] *)

Definition dquote : ascii := ascii_of_nat 34.

(** The literal text of [_LINK_LAST_RE], in lower case. *)
Definition REL_LAST : string :=
  "rel=" ++ String dquote ("last" ++ String dquote EmptyString).

(** [prefix] up to letter case: the pattern is given in lower case. *)
Fixpoint prefix_ci (pat s : string) : bool :=
  match pat, s with
  | EmptyString, _ => true
  | String p pat', String c s' => (lower c =? p)%char && prefix_ci pat' s'
  | String _ _, EmptyString => false
  end.

(** [_LINK_LAST_RE.search(p)]: does [rel="last"] occur in [p], in any case? *)
Fixpoint link_last_search (p : string) : bool :=
  prefix_ci REL_LAST p
  || match p with
     | EmptyString => false
     | String _ p' => link_last_search p'
     end.

(** The longest run of digits [s] starts with: what [(\d+)] captures. *)
Fixpoint take_digits (s : string) : string :=
  match s with
  | String c s' => if is_digit c then String c (take_digits s') else EmptyString
  | EmptyString => EmptyString
  end.

(** [_LINK_PAGE_RE] matched at the very start of [p]: group 1 of
    [[?&]page=(\d+)] there, if it matches. *)
Definition page_match_here (p : string) : option string :=
  match p with
  | EmptyString => None
  | String c p' =>
      if ((c =? "?")%char || (c =? "&")%char) && prefix "page=" p'
      then match take_digits (drop 5 p') with
           | EmptyString => None
           | ds => Some ds
           end
      else None
  end.

(** [_LINK_PAGE_RE.search(p)]: group 1 of the leftmost match, if any. *)
Fixpoint link_page_search (p : string) : option string :=
  match page_match_here p with
  | Some ds => Some ds
  | None =>
      match p with
      | EmptyString => None
      | String _ p' => link_page_search p'
      end
  end.

(** The [for p in parts] loop. *)
Fixpoint last_page_loop (parts : list string) : option Z :=
  match parts with
  | [] => None
  | p :: rest =>
      if link_last_search p then
        match link_page_search p with
        | Some ds => int_of_str ds
        | None => last_page_loop rest
        end
      else last_page_loop rest
  end.

Definition nonempty (s : string) : bool := negb (s =? "")%string.

(** [[p.strip() for p in link_header.split(",") if p.strip()]] *)
Definition link_parts (link_header : string) : list string :=
  filter nonempty (map strip (split_on "," link_header)).

Definition _parse_link_last_page (link_header : string) : option Z :=
  if nonempty link_header then last_page_loop (link_parts link_header)
  else None.

(** ** [parse_repo_slug] *)

Definition parse_repo_slug (s : string) : option (string * string) :=
  let s := strip s in
  if nonempty s then
    let s := strip_slash (replace "https://github.com/" "" s) in
    if contains_char "/" s then
      let '(owner, name) := split_once "/" s in
      let owner := strip owner in
      let name := strip name in
      if nonempty owner && nonempty name then Some (owner, name) else None
    else None
  else None.

(** ** The remote API *)

(** What one GET yields: a decoded JSON body with the response headers, an
    HTTP error status with its body, or any other failure (transport,
    decoding) with the text of its exception. *)
Inductive Response : Type :=
| RespJson (data : PyVal) (headers : list (string * string))
| RespHttpError (status : Z) (body : string)
| RespFailure (text : string).

(** A remote API: the response to each request URL. *)
Definition Api : Type := string -> Response.

Definition nl : string := String (ascii_of_nat 10) EmptyString.

(** [GitHubClient.get_json_with_headers] *)
Definition get_json_with_headers (api : Api) (url : string)
  : result (PyVal * list (string * string)) :=
  match api url with
  | RespJson data headers => Ok (data, headers)
  | RespHttpError status body =>
      Raised (RuntimeError
        ("GitHub API HTTP " ++ dec status ++ ": " ++ url ++ nl ++ take 4000 body))
  | RespFailure text =>
      Raised (RuntimeError ("GitHub API error: " ++ url ++ nl ++ text))
  end.

(** [GitHubClient.get_json] *)
Definition get_json (api : Api) (url : string) : result PyVal :=
  r <- get_json_with_headers api url ;; Ok (fst r).

(** [headers.get(k)] on the str-to-str dict of response headers. *)
Fixpoint header_get (headers : list (string * string)) (k : string) : option string :=
  match headers with
  | [] => None
  | (k', v) :: rest => if (k' =? k)%string then Some v else header_get rest k
  end.

(** [headers.get("Link") or headers.get("link") or ""] *)
Definition link_header_of (headers : list (string * string)) : string :=
  match header_get headers "Link" with
  | Some (String c s) => String c s
  | _ => match header_get headers "link" with
         | Some (String c s) => String c s
         | _ => EmptyString
         end
  end.

(** The items of a value known to be a list. *)
Definition list_items (v : PyVal) : list PyVal :=
  match v with PList l => l | _ => [] end.

(** [[x for x in chunk if isinstance(x, dict)]] *)
Fixpoint dicts_of (chunk : list PyVal) : list pydict :=
  match chunk with
  | [] => []
  | PDict d :: rest => d :: dicts_of rest
  | _ :: rest => dicts_of rest
  end.

Definition PER_PAGE : nat := 100.
Definition MAX_PAGES : Z := 20.

Definition releases_url (repo_url : string) (page : Z) : string :=
  repo_url ++ "/releases?per_page=100&page=" ++ dec page.

(** Pages the loop may still request when it is about to request [page]. *)
Definition pages_left (page : Z) : nat := Z.to_nat (MAX_PAGES + 1 - page).

#[local] Opaque pages_left.

(** The [while True] loop over the release pages, entered with the current
    [page] and the releases gathered so far.  It yields the URLs it
    requested, in order, with the releases, or the exception of the
    request that failed. *)
Equations? releases_loop (api : Api) (repo_url : string) (page : Z)
  (releases : list pydict) : list string * result (list pydict)
  by wf (pages_left page) lt :=
releases_loop api repo_url page releases
  with get_json api (releases_url repo_url page) => {
  | Raised e => ([releases_url repo_url page], Raised e)
  | Ok chunk with negb (is_list chunk) || negb (truthy chunk) => {
      | true => ([releases_url repo_url page], Ok releases)
      | false with (List.length (list_items chunk) <? PER_PAGE)%nat => {
          | true =>
              ([releases_url repo_url page],
               Ok (releases ++ dicts_of (list_items chunk))%list)
          | false with Z_gt_dec (page + 1) MAX_PAGES => {
              | left _ =>
                  ([releases_url repo_url page],
                   Ok (releases ++ dicts_of (list_items chunk))%list)
              | right _ =>
                  let '(urls, r) :=
                    releases_loop api repo_url (page + 1)
                      (releases ++ dicts_of (list_items chunk))%list in
                  (releases_url repo_url page :: urls, r) } } } }.
Proof.
  with_strategy transparent [pages_left] unfold pages_left, MAX_PAGES in *.
  lia.
Qed.

#[local] Transparent pages_left.

(** ** [GitHubFetchBlock.execute] *)

Section Fetch.

(** [str(v)] of a float, a list or a dict.  Their printed form is the
    interpreter's; the blocks only store it, and every result below holds
    whatever it is. *)
Variable str_other : PyVal -> string.

(** [str(v)] *)
Definition py_str (v : PyVal) : string :=
  match v with
  | PStr s => s
  | PNone => "None"
  | PBool true => "True"
  | PBool false => "False"
  | PInt z => dec z
  | _ => str_other v
  end.

Definition newline_to_space (c : ascii) : ascii :=
  if ((code c =? 13) || (code c =? 10))%nat then " "%char else c.

Definition _safe_str (v : PyVal) (n : nat) : string :=
  let s := match v with PNone => EmptyString | _ => py_str v end in
  take n (map_chars newline_to_space s).

(** [x.strip()] on an arbitrary value. *)
Definition py_strip (x : PyVal) : result string :=
  match x with
  | PStr s => Ok (strip s)
  | _ => Raised (AttributeError
           ("'" ++ type_name x ++ "' object has no attribute 'strip'"))
  end.

(** The token the block works with: the payload's, else the environment's,
    and the [params] override when it is there. *)
Definition resolve_token (payload params : pydict) (env_token : option string)
  : result string :=
  t <- py_strip (py_or (dict_get payload "token") (PStr "")) ;;
  let token :=
    if nonempty t then t
    else strip (match env_token with Some s => s | None => EmptyString end) in
  match dict_get params "token" with
  | PNone => Ok token
  | v => Ok (strip (py_str (py_or v (PStr ""))))
  end.

(** The commits total and its warning: the inner [try] of the block. *)
Definition fetch_commits (api : Api) (repo_url : string) : Z * string :=
  match get_json_with_headers api (repo_url ++ "/commits?per_page=1") with
  | Raised e => (0, _safe_str (PStr (exc_str e)) 1200)
  | Ok (PList commits_json, headers) =>
      match _parse_link_last_page (link_header_of headers) with
      | Some last_page => (last_page, EmptyString)
      | None => (Z.of_nat (List.length commits_json), EmptyString)
      end
  | Ok _ => (0, EmptyString)
  end.

Definition fetch_languages (api : Api) (repo_url : string) : PyVal :=
  match get_json api (repo_url ++ "/languages") with
  | Ok langs => langs
  | Raised _ => PDict []
  end.

(** The inner loop over a release's assets. *)
Fixpoint assets_sum (assets : list PyVal) (rel_sum : Z) : Z :=
  match assets with
  | [] => rel_sum
  | PDict a :: rest => assets_sum rest (rel_sum + clamp (dict_get a "download_count"))
  | _ :: rest => assets_sum rest rel_sum
  end.

Definition release_entry (rel : pydict) (assets : PyVal) (rel_sum : Z) : PyVal :=
  PDict
    [ ("tag", PStr (_safe_str (py_or (dict_get rel "tag_name") (PStr "")) 128));
      ("name", PStr (_safe_str (py_or (dict_get rel "name") (PStr "")) 256));
      ("published_at",
        PStr (_safe_str (py_or (dict_get rel "published_at") (PStr "")) 64));
      ("assets_count", PInt (Z.of_nat (List.length (list_items assets))));
      ("assets_downloads", PInt rel_sum) ].

(** The loop over [releases]: the grand total and the per-release list. *)
Fixpoint summarize_releases (releases : list pydict)
  (total : Z) (per_release : list PyVal) : result (Z * list PyVal) :=
  match releases with
  | [] => Ok (total, per_release)
  | rel :: rest =>
      let assets := py_or (dict_get rel "assets") (PList []) in
      items <- py_iter assets ;;
      let rel_sum := assets_sum items 0 in
      summarize_releases rest (total + rel_sum)
        (per_release ++ [release_entry rel assets rel_sum])
  end.

Definition traffic_endpoints (repo_url : string) : list (string * string) :=
  [ ("views", repo_url ++ "/traffic/views?per=day");
    ("clones", repo_url ++ "/traffic/clones?per=day");
    ("referrers", repo_url ++ "/traffic/popular/referrers");
    ("paths", repo_url ++ "/traffic/popular/paths") ].

(** The loop over the traffic endpoints: the mapping and the warnings. *)
Fixpoint traffic_loop (api : Api) (endpoints : list (string * string))
  (traffic : pydict) (errs : list string) : pydict * list string :=
  match endpoints with
  | [] => (traffic, errs)
  | (key, url) :: rest =>
      match get_json api url with
      | Ok v => traffic_loop api rest (dict_set traffic key v) errs
      | Raised e =>
          traffic_loop api rest traffic
            (errs ++ [key ++ ": " ++ _safe_str (PStr (exc_str e)) 800])
      end
  end.

Definition fetch_traffic (api : Api) (token repo_url : string) : pydict * string :=
  if nonempty token then
    let '(traffic, errs) := traffic_loop api (traffic_endpoints repo_url) [] [] in
    (traffic, strip (join nl errs))
  else ([], EmptyString).

Definition safe_field (repo : PyVal) (k : string) (n : nat) : result PyVal :=
  v <- py_get repo k ;; Ok (PStr (_safe_str (py_or v (PStr "")) n)).

Definition clamp_field (repo : PyVal) (k : string) : result PyVal :=
  v <- py_get repo k ;; Ok (PInt (clamp v)).

(** The record appended to [out["repos"]]. *)
Definition repo_record (full : string) (repo : PyVal) (commits : Z * string)
  (langs : PyVal) (releases : list pydict) (summary : Z * list PyVal)
  (tr : pydict * string) : result PyVal :=
  let '(commits_total, commits_err) := commits in
  let '(total_asset_downloads, per_release) := summary in
  let '(traffic, traffic_err) := tr in
  html_url <- safe_field repo "html_url" 256 ;;
  default_branch <- safe_field repo "default_branch" 128 ;;
  pushed_at <- safe_field repo "pushed_at" 64 ;;
  updated_at <- safe_field repo "updated_at" 64 ;;
  created_at <- safe_field repo "created_at" 64 ;;
  let views_14d_total :=
    match traffic with
    | [] => 0
    | _ => _traffic_total_from_series (dict_get traffic "views") "views"
    end in
  let clones_14d_total :=
    match traffic with
    | [] => 0
    | _ => _traffic_total_from_series (dict_get traffic "clones") "clones"
    end in
  stars <- clamp_field repo "stargazers_count" ;;
  forks <- clamp_field repo "forks_count" ;;
  watchers <- clamp_field repo "subscribers_count" ;;
  open_issues <- clamp_field repo "open_issues_count" ;;
  size_kb <- clamp_field repo "size" ;;
  language <- safe_field repo "language" 64 ;;
  Ok (PDict
    [ ("repo", PStr full);
      ("html_url", html_url);
      ("default_branch", default_branch);
      ("pushed_at", pushed_at);
      ("updated_at", updated_at);
      ("created_at", created_at);
      ("commits_total", PInt commits_total);
      ("commits_error", PStr commits_err);
      ("views_14d_total", PInt views_14d_total);
      ("clones_14d_total", PInt clones_14d_total);
      ("stars", stars);
      ("forks", forks);
      ("watchers", watchers);
      ("open_issues", open_issues);
      ("size_kb", size_kb);
      ("language", language);
      ("languages", PDict (dict_or_empty langs));
      ("releases_count", PInt (Z.of_nat (List.length releases)));
      ("release_asset_downloads_total", PInt total_asset_downloads);
      ("releases", PList per_release);
      ("traffic", PDict traffic);
      ("traffic_error", PStr traffic_err) ]).

Definition api_repo_url (owner name : string) : string :=
  "https://api.github.com/repos/" ++ owner ++ "/" ++ name.

(** The body of the outer [try] for one parsed slug. *)
Definition fetch_repo (api : Api) (token owner name : string) : result PyVal :=
  let full := owner ++ "/" ++ name in
  let repo_url := api_repo_url owner name in
  repo <- get_json api repo_url ;;
  let commits := fetch_commits api repo_url in
  let langs := fetch_languages api repo_url in
  releases <- snd (releases_loop api repo_url 1 []) ;;
  summary <- summarize_releases releases 0 [] ;;
  let tr := fetch_traffic api token repo_url in
  repo_record full repo commits langs releases summary tr.

(** What one element of [repos_in] adds to the output. *)
Inductive Outcome : Type :=
| Fetched (record : PyVal)
| Failed (error : PyVal).

Definition error_record (repo error : string) : PyVal :=
  PDict [("repo", PStr repo); ("error", PStr error)].

(** One iteration of the loop over [repos_in]. *)
Definition process_repo (api : Api) (token : string) (r : PyVal) : Outcome :=
  match parse_repo_slug (py_str r) with
  | None => Failed (error_record (py_str r) "invalid_repo_slug")
  | Some (owner, name) =>
      match fetch_repo api token owner name with
      | Ok record => Fetched record
      | Raised e =>
          Failed (error_record (owner ++ "/" ++ name)
                    (_safe_str (PStr (exc_str e)) 4000))
      end
  end.

(** The lists [out["repos"]] and [out["errors"]] and [meta["count"]]. *)
Record FetchState : Type := mkFetchState {
  st_repos : list PyVal;
  st_errors : list PyVal;
  st_count : Z
}.

Definition fetch_step (api : Api) (token : string) (st : FetchState) (r : PyVal)
  : FetchState :=
  match process_repo api token r with
  | Fetched record =>
      mkFetchState (st_repos st ++ [record]) (st_errors st) (st_count st + 1)
  | Failed error =>
      mkFetchState (st_repos st) (st_errors st ++ [error]) (st_count st)
  end.

Definition fetch_loop (api : Api) (token : string) (repos_in : list PyVal)
  : FetchState :=
  fold_left (fetch_step api token) repos_in (mkFetchState [] [] 0).

(** The block.  [now] is the reading of the clock, [env_token] the
    [GITHUB_TOKEN] variable of the environment. *)
Definition fetch_execute (api : Api) (env_token : option string)
  (now : spec_float) (payload : PyVal) (params : pydict)
  : result (PyVal * PyVal) :=
  let payload := dict_or_empty payload in
  let repos_in := py_or (dict_get payload "repos") (PList []) in
  token <- resolve_token payload params env_token ;;
  items <- py_iter repos_in ;;
  let st := fetch_loop api token items in
  Ok (PDict [ ("generated_at", PFloat now);
              ("repos", PList (st_repos st));
              ("errors", PList (st_errors st)) ],
      PDict [ ("token_provided", PBool (nonempty token));
              ("count", PInt (st_count st)) ]).

(** ** Running the two blocks in sequence, as [run_cli] and the window do *)

Definition fetch_then_aggregate (api : Api) (env_token : option string)
  (now : spec_float) (payload : PyVal) : result PyVal :=
  r1 <- fetch_execute api env_token now payload [] ;;
  r2 <- aggregate_execute (fst r1) ;;
  Ok (fst r2).

End Fetch.

(** ** [Registry] and the registered blocks *)

(** What a call can end with besides a value: an exception of type [E]. *)
Inductive attempt (E A : Type) : Type :=
| Returns (a : A)
| Raises (e : E).
Arguments Returns {E A} a.
Arguments Raises {E A} e.

Module Registry.

Section WithClass.

Variable C : Type.

(** [self._blocks]: a dict from block names to classes, in insertion order. *)
Definition t : Type := list (string * C).

(** [Registry()] *)
Definition empty : t := [].

(** [self._blocks[name] = cls] *)
Fixpoint register (reg : t) (name : string) (cls : C) : t :=
  match reg with
  | [] => [(name, cls)]
  | (name', cls') :: reg' =>
      if (name' =? name)%string then (name, cls) :: reg'
      else (name', cls') :: register reg' name cls
  end.

(** [self._blocks[name]]: [None] stands for the [KeyError] of a missing name. *)
Fixpoint get (reg : t) (name : string) : option C :=
  match reg with
  | [] => None
  | (name', cls) :: reg' => if (name' =? name)%string then Some cls else get reg' name
  end.

(** [name in self._blocks] *)
Fixpoint has (reg : t) (name : string) : bool :=
  match reg with
  | [] => false
  | (name', _) :: reg' => (name' =? name)%string || has reg' name
  end.

End WithClass.

Arguments empty {C}.
Arguments register {C} reg name cls.
Arguments get {C} reg name.
Arguments has {C} reg name.

End Registry.

(** The classes the [block] decorator registers. *)
Inductive BlockClass : Type :=
| ConfigLoadBlock
| ConfigSaveBlock
| GitHubFetchBlock
| GitHubAggregateBlock.

(** [BLOCKS] once the module is loaded: the four decorated classes, in the
    order of their definitions. *)
Definition BLOCKS : Registry.t BlockClass :=
  Registry.register
    (Registry.register
       (Registry.register
          (Registry.register Registry.empty "config_load" ConfigLoadBlock)
          "config_save" ConfigSaveBlock)
       "github_fetch" GitHubFetchBlock)
    "github_aggregate" GitHubAggregateBlock.

(** What [run_block] can raise: the registry's [KeyError], or whatever the
    block's [execute] raises. *)
Inductive RunExc : Type :=
| KeyError (key : string)
| BlockRaised (e : PyExc).

Section RunBlock.

Variable str_other : PyVal -> string.

(** The world a block runs in: the remote API, the [GITHUB_TOKEN] variable
    and the reading of the clock. *)
Variable api : Api.
Variable env_token : option string.
Variable now : spec_float.

(** [execute] of the two config blocks, which read and write the file
    system: left open. *)
Variable config_load_execute : PyVal -> pydict -> result (PyVal * PyVal).
Variable config_save_execute : PyVal -> pydict -> result (PyVal * PyVal).

(** [blk_cls().execute(payload, params=params)] *)
Definition block_execute (cls : BlockClass) (payload : PyVal) (params : pydict)
  : result (PyVal * PyVal) :=
  match cls with
  | ConfigLoadBlock => config_load_execute payload params
  | ConfigSaveBlock => config_save_execute payload params
  | GitHubFetchBlock => fetch_execute str_other api env_token now payload params
  | GitHubAggregateBlock => aggregate_execute payload
  end.

(** [run_block] of [gui.py]; [params] is [None] or a dict. *)
Definition run_block (name : string) (payload : PyVal) (params : option pydict)
  : attempt RunExc (PyVal * PyVal) :=
  match Registry.get BLOCKS name with
  | None => Raises (KeyError name)
  | Some cls =>
      let params := match params with Some p => p | None => [] end in
      match block_execute cls payload params with
      | Ok r => Returns r
      | Raised e => Raises (BlockRaised e)
      end
  end.

End RunBlock.

(** ** [Pipeline.run] *)

Record BlockInstance : Type := mkBlockInstance {
  bi_name : string;
  bi_params : pydict
}.

Module Pipeline.

Section WithRunner.

Variable E : Type.
Variable runner : string -> PyVal -> pydict -> attempt E (PyVal * PyVal).

Definition step_record (bi : BlockInstance) (meta : PyVal) : PyVal :=
  PDict [("block", PStr (bi_name bi)); ("meta", meta)].

(** The [for bi in self.blocks] loop, entered with the current payload and
    the steps recorded so far. *)
Fixpoint loop (blocks : list BlockInstance) (cur : PyVal) (steps : list PyVal)
  : attempt E (PyVal * list PyVal) :=
  match blocks with
  | [] => Returns (cur, steps)
  | bi :: rest =>
      match runner (bi_name bi) cur (bi_params bi) with
      | Raises e => Raises e
      | Returns (out, meta) => loop rest out (steps ++ [step_record bi meta])
      end
  end.

Definition run (blocks : list BlockInstance) (payload : PyVal)
  : attempt E (PyVal * PyVal) :=
  match loop blocks payload [] with
  | Returns (cur, steps) => Returns (cur, PDict [("steps", PList steps)])
  | Raises e => Raises e
  end.

End WithRunner.

Arguments step_record bi meta : assert.
Arguments loop {E} runner blocks cur steps.
Arguments run {E} runner blocks payload.

End Pipeline.

(** * Vocabulary of the properties

    The notions the statements below are written with, and the concrete
    inputs they are run on. *)

(** ** The derived total of a traffic series: notions *)

Definition Zsum (l : list Z) : Z := fold_right Z.add 0 l.

(** The count a series entry contributes: its clamped [count] when the
    entry is a dict, nothing otherwise. *)
Definition entry_count (it : PyVal) : Z :=
  match it with
  | PDict d => clamp (dict_get d "count")
  | _ => 0
  end.

Definition daily_sum (series : list PyVal) : Z := Zsum (map entry_count series).

(** A value that is a non-empty list. *)
Definition nonempty_list (v : PyVal) : bool := is_list v && truthy v.

(** ** The aggregate block: notions *)

(** A [totals] dict with the eleven counters, in the order of the source. *)
Definition mk_totals (repos stars forks watchers open_issues downloads
  views_total views_unique clones_total clones_unique commits : Z) : totals_dict :=
  [ ("repos", repos); ("stars", stars); ("forks", forks); ("watchers", watchers);
    ("open_issues", open_issues); ("release_asset_downloads_total", downloads);
    ("views_14d_total", views_total); ("views_14d_unique", views_unique);
    ("clones_14d_total", clones_total); ("clones_14d_unique", clones_unique);
    ("commits_total", commits) ].

(** The clamped top-level field [k] of a record. *)
Definition field (k : string) (r : pydict) : Z := clamp (dict_get r k).

(** The clamped field [k] of the sub-dict [part] of a record's traffic block. *)
Definition traffic_field (part k : string) (r : pydict) : Z :=
  clamp (dict_get
           (dict_or_empty (dict_get (dict_or_empty (dict_get r "traffic")) part)) k).

Definition sum_over (f : pydict -> Z) (records : list pydict) : Z :=
  Zsum (map f records).

(** The totals the specification describes for a list of dict records. *)
Definition totals_spec (records : list pydict) : totals_dict :=
  mk_totals
    (Z.of_nat (List.length records))
    (sum_over (field "stars") records)
    (sum_over (field "forks") records)
    (sum_over (field "watchers") records)
    (sum_over (field "open_issues") records)
    (sum_over (field "release_asset_downloads_total") records)
    (sum_over (traffic_field "views" "count") records)
    (sum_over (traffic_field "views" "uniques") records)
    (sum_over (traffic_field "clones" "count") records)
    (sum_over (traffic_field "clones" "uniques") records)
    (sum_over (field "commits_total") records).

Definition sample_record (stars views : Z) : PyVal :=
  PDict [ ("repo", PStr "o/r"); ("stars", PInt stars);
          ("views_14d_total", PInt 99);
          ("traffic", PDict [("views", PDict [("count", PInt views)])]) ].

(** Values a [for] loop accepts. *)
Definition iterable (v : PyVal) : bool :=
  match v with
  | PList _ | PStr _ | PDict _ => true
  | _ => false
  end.

(** A payload on which the aggregate block raises: [repos] is a number. *)
Definition payload_repos_number : PyVal := PDict [("repos", PInt 5)].

(** ** The releases paging loop: notions *)

(** The [n] page numbers from [page] on. *)
Definition pages_from (page : Z) (n : nat) : list Z :=
  map (fun i => page + Z.of_nat i) (seq 0 n).

(** The response for [page] is a non-empty list of at least 100 entries:
    the only response after which the loop goes on. *)
Definition full_page (api : Api) (repo_url : string) (page : Z) : bool :=
  match get_json api (releases_url repo_url page) with
  | Ok chunk =>
      is_list chunk && truthy chunk
      && negb (List.length (list_items chunk) <? PER_PAGE)%nat
  | Raised _ => false
  end.

(** The requests of a run of the loop entered at [page]: [n] consecutive
    pages, all full but possibly the last, which is either not full or the
    one that reaches the ceiling. *)
Definition paging_trace (api : Api) (repo_url : string) (page : Z)
  (urls : list string) : Prop :=
  exists n : nat,
    (1 <= n)%nat
    /\ (page <= MAX_PAGES -> page + Z.of_nat n - 1 <= MAX_PAGES)
    /\ urls = map (releases_url repo_url) (pages_from page n)
    /\ (forall i, (i < n - 1)%nat ->
          full_page api repo_url (page + Z.of_nat i) = true)
    /\ (full_page api repo_url (page + Z.of_nat n - 1) = false
        \/ page + Z.of_nat n - 1 >= MAX_PAGES).

(** ** Decimal digits: notions *)

Fixpoint all_digits (s : string) : bool :=
  match s with
  | EmptyString => true
  | String c s' => is_digit c && all_digits s'
  end.

(** The number a string of decimal digits denotes, after the digits [acc]. *)
Fixpoint digits_number (s : string) (acc : Z) : Z :=
  match s with
  | EmptyString => acc
  | String c s' => digits_number s' (10 * acc + digit_val c)
  end.

(** ** The fetch block: notions *)

(** The records a list of outcomes appends to [out["repos"]]. *)
Definition fetched_of (o : Outcome) : list PyVal :=
  match o with Fetched record => [record] | Failed _ => [] end.

(** The records a list of outcomes appends to [out["errors"]]. *)
Definition failed_of (o : Outcome) : list PyVal :=
  match o with Fetched _ => [] | Failed error => [error] end.

(** The records and the errors that the outcomes of [items] leave in the
    output, in the order of [items]. *)
Definition records_of (outcome : PyVal -> Outcome) (items : list PyVal)
  : list PyVal :=
  flat_map (fun r => fetched_of (outcome r)) items.

Definition errors_of (outcome : PyVal -> Outcome) (items : list PyVal)
  : list PyVal :=
  flat_map (fun r => failed_of (outcome r)) items.

(** ** Which slugs are fetched: notions *)

(** [assets] of a release can be looped over. *)
Definition assets_iterable (rel : pydict) : bool :=
  iterable (py_or (dict_get rel "assets") (PList [])).

(** The conditions under which the outer [try] of a slug completes: the
    metadata request yields a JSON object, no request for a releases
    page fails, and the [assets] of every release can be looped over. *)
Definition slug_fetchable (api : Api) (owner name : string) : Prop :=
  exists rd releases,
    get_json api (api_repo_url owner name) = Ok (PDict rd)
    /\ snd (releases_loop api (api_repo_url owner name) 1 []) = Ok releases
    /\ forallb assets_iterable releases = true.

(** ** The numeric fields of a record: notions *)

Definition in_clamp_range (z : Z) : Prop := 0 <= z <= CLAMP_HI.

(** Field [k] of the dict [v] is an int that satisfies [P]. *)
Definition int_field (v : PyVal) (k : string) (P : Z -> Prop) : Prop :=
  exists z, dict_get (dict_or_empty v) k = PInt z /\ P z.

Definition int_of (v : PyVal) : Z := match v with PInt z => z | _ => 0 end.

Definition downloads_of (entry : PyVal) : Z :=
  int_of (dict_get (dict_or_empty entry) "assets_downloads").

(** An entry of [releases]: both counters are non-negative, and the
    downloads are at most the clamp bound for each asset counted. *)
Definition release_counters_ok (entry : PyVal) : Prop :=
  exists count downloads,
    dict_get (dict_or_empty entry) "assets_count" = PInt count
    /\ dict_get (dict_or_empty entry) "assets_downloads" = PInt downloads
    /\ 0 <= count
    /\ 0 <= downloads <= CLAMP_HI * count.

(** ** A failing commits call: notions *)

Definition commits_url (owner name : string) : string :=
  api_repo_url owner name ++ "/commits?per_page=1".

(** Two APIs that answer alike everywhere but at the commits URL of a slug. *)
Definition same_but_commits (api api' : Api) (owner name : string) : Prop :=
  forall url, url <> commits_url owner name -> api url = api' url.

(** ** Concrete runs: notions *)

(** A stand-in for the printed form of floats, lists and dicts, for running
    the blocks on inputs that never print one. *)
Definition str_blank : PyVal -> string := fun _ => EmptyString.

Definition demo_url : string := "https://api.github.com/repos/octo/demo".

Definition now0 : spec_float := S754_zero false.

(** An API where every request succeeds and answers with an empty JSON list. *)
Definition api_empty_lists : Api := fun _ => RespJson (PList []) [].

(** An API where every request succeeds: [octo/demo] has JSON-object
    metadata and one release, whose [assets] entry is a number. *)
Definition api_assets_number : Api := fun url =>
  if (url =? demo_url)%string then RespJson (PDict [("stargazers_count", PInt 7)]) []
  else if (url =? demo_url ++ "/releases?per_page=100&page=1")%string then
    RespJson (PList [PDict [("tag_name", PStr "v1"); ("assets", PInt 5)]]) []
  else RespJson (PList []) [].

(** An API with one repository, [octo/demo]: two release assets at the
    clamp bound, every other request refused. *)
Definition api_demo : Api := fun url =>
  if (url =? demo_url)%string then
    RespJson (PDict [ ("html_url", PStr "https://github.com/octo/demo");
                      ("stargazers_count", PInt 7);
                      ("forks_count", PInt (-1)) ]) []
  else if (url =? demo_url ++ "/releases?per_page=100&page=1")%string then
    RespJson
      (PList [ PDict [ ("tag_name", PStr "v1");
                       ("assets",
                         PList [ PDict [("download_count", PInt 2000000000)];
                                 PDict [("download_count", PInt 2000000000)] ]) ] ])
      []
  else RespHttpError 404 "Not Found".

(** An API that serves the metadata of [octo/demo] and refuses the rest. *)
Definition api_rate_limited : Api := fun url =>
  if (url =? demo_url)%string then RespJson (PDict [("stargazers_count", PInt 7)]) []
  else RespHttpError 403 "rate limit exceeded".

(** An API that serves [octo/demo] but fails its commits request. *)
Definition api_commits_down : Api := fun url =>
  if (url =? demo_url)%string then RespJson (PDict [("stargazers_count", PInt 7)]) []
  else if (url =? demo_url ++ "/commits?per_page=1")%string then
    RespFailure "timed out"
  else RespJson (PList []) [].

Definition demo_payload : pydict :=
  [ ("repos", PList [ PStr "octo/demo"; PStr "not a slug";
                      PStr "https://github.com/octo/missing/" ]) ].

(** ** The pagination helper: notions *)

Definition starts_with_digit (s : string) : bool :=
  match s with
  | String c _ => is_digit c
  | EmptyString => false
  end.

(** The entry [p] holds the text [rel="last"], in any letter case. *)
Definition marked_last (p : string) : Prop :=
  exists a m b, p = a ++ m ++ b /\ map_chars lower m = REL_LAST.

(** After the text [a], the entry [p] holds a page parameter: [?] or [&],
    then [page=], then the digits [ds], the whole run of them. *)
Definition page_param (p a ds b : string) : Prop :=
  exists c,
    p = a ++ String c ("page=" ++ ds ++ b)
    /\ (c = "?"%char \/ c = "&"%char)
    /\ all_digits ds = true /\ ds <> EmptyString
    /\ starts_with_digit b = false.

(** The entry [p] carries a page parameter of value [n]. *)
Definition carries_page (p : string) (n : Z) : Prop :=
  exists a ds b, page_param p a ds b /\ n = digits_number ds 0.

(** [ds] is the digit run of the leftmost page parameter of [p]. *)
Definition leftmost_page_digits (p ds : string) : Prop :=
  exists a b,
    page_param p a ds b
    /\ forall a' ds' b', page_param p a' ds' b' ->
         (String.length a <= String.length a')%nat.

(** A digit run [int] converts: at most 4300 digits. *)
Definition within_int_limit (ds : string) : bool :=
  Z.of_nat (String.length ds) <=? 4300.

(** A [rel="last"] entry with a page parameter. *)
Definition last_with_page (p : string) : Prop :=
  marked_last p /\ exists n, carries_page p n.

(** A header with two entries marked [rel="last"]: pages 3 and 5. *)
Definition entry_last (page : string) : string :=
  "<https://api.github.com/r?page=" ++ page ++ ">; " ++ REL_LAST.

Definition header_two_last : string := entry_last "3" ++ ", " ++ entry_last "5".

(** A [rel="last"] entry whose page number is [n] times the digit 9. *)
Definition entry_last_nines (n : nat) : string :=
  entry_last (string_of_list_ascii (repeat "9"%char n)).

Definition header_next_last : string :=
  "<https://api.github.com/r?per_page=1&page=2>; rel=" ++ String dquote "next"
  ++ String dquote ", <https://api.github.com/r?per_page=1&page=345>; REL="
  ++ String dquote "Last" ++ String dquote EmptyString.

(** * Vocabulary of the further properties *)

(** ** Strings: notions *)

Fixpoint all_chars (p : ascii -> bool) (s : string) : bool :=
  match s with
  | EmptyString => true
  | String c s' => p c && all_chars p s'
  end.

Definition is_newline (c : ascii) : bool :=
  ((code c =? 13) || (code c =? 10))%nat.

(** No carriage return and no line feed. *)
Definition single_line (s : string) : bool :=
  all_chars (fun c => negb (is_newline c)) s.

(** A character of an owner or of a repository name: no whitespace, no
    slash, no colon. *)
Definition slug_char (c : ascii) : bool :=
  negb (is_space c) && negb (c =? "/")%char && negb (c =? ":")%char.

(** A non-empty text made of such characters. *)
Definition slug_text (s : string) : bool := nonempty s && all_chars slug_char s.

Definition HOST_PREFIX : string := "https://github.com/".


(** The first character, if any, does not satisfy [p]. *)
Definition starts_clean (p : ascii -> bool) (s : string) : bool :=
  match s with
  | EmptyString => true
  | String c _ => negb (p c)
  end.


(** ** The aggregate block: further notions *)

(** Two [totals] dicts added counter by counter. *)
Definition totals_merge (a b : totals_dict) : totals_dict :=
  map (fun ab => (fst (fst ab), snd (fst ab) + snd (snd ab))) (combine a b).


(** ** The runner and the pipeline: further notions *)

(** The step records of a pipeline's metadata. *)
Definition steps_of (meta : PyVal) : list PyVal :=
  list_items (dict_get (dict_or_empty meta) "steps").

(** [run_block] ends as the block's [execute] does. *)
Definition as_attempt {A : Type} (r : result A) : attempt RunExc A :=
  match r with
  | Ok a => Returns a
  | Raised e => Raises (BlockRaised e)
  end.

(** The pipeline that fetches and then aggregates, with empty parameters. *)
Definition analytics_pipeline : list BlockInstance :=
  [mkBlockInstance "github_fetch" []; mkBlockInstance "github_aggregate" []].


(** ** The fetch block: further notions *)

(** The dict entries of the page a releases URL answers with. *)
Definition page_dicts (api : Api) (url : string) : list pydict :=
  match get_json api url with
  | Ok chunk => dicts_of (list_items chunk)
  | Raised _ => []
  end.

(** The traffic mapping: the answers of the endpoints that answered, under
    their keys, in the order of the endpoints. *)
Definition traffic_entries (api : Api) (repo_url : string) : pydict :=
  flat_map
    (fun kv => match get_json api (snd kv) with
               | Ok v => [(fst kv, v)]
               | Raised _ => []
               end)
    (traffic_endpoints repo_url).

(** Field [k] of the dict [v] is a str of at most [n] characters on one line. *)
Definition str_field_within (v : PyVal) (k : string) (n : nat) : Prop :=
  exists s,
    dict_get (dict_or_empty v) k = PStr s
    /\ (String.length s <= n)%nat /\ single_line s = true.

Definition RECORD_KEYS : list string :=
  [ "repo"; "html_url"; "default_branch"; "pushed_at"; "updated_at";
    "created_at"; "commits_total"; "commits_error"; "views_14d_total";
    "clones_14d_total"; "stars"; "forks"; "watchers"; "open_issues"; "size_kb";
    "language"; "languages"; "releases_count"; "release_asset_downloads_total";
    "releases"; "traffic"; "traffic_error" ].

Definition RELEASE_KEYS : list string :=
  ["tag"; "name"; "published_at"; "assets_count"; "assets_downloads"].

(** An entry of a record's [releases]: its keys and its bounded strings. *)
Definition release_entry_shape (entry : PyVal) : Prop :=
  map fst (dict_or_empty entry) = RELEASE_KEYS
  /\ str_field_within entry "tag" 128
  /\ str_field_within entry "name" 256
  /\ str_field_within entry "published_at" 64.

(** ** Tactics *)

(** Unfold the clause function at the head of the right-hand side, then
    rewrite the scrutinee it matches on with the equations at hand. *)
Ltac head_of t := match t with ?f _ => head_of f | _ => t end.
Ltac unfold_clause :=
  match goal with |- _ = ?rhs => let h := head_of rhs in unfold h end.
Ltac rewrite_scrutinee :=
  match goal with H : ?x = _ |- context [match ?x with _ => _ end] => rewrite H end.

(** * Properties *)

(** ** The helpers on small inputs *)

Example clamp_above : clamp (PInt 3000000000) = 2000000000.
Proof. reflexivity. Qed.

Example clamp_below : clamp (PInt (-4)) = 0.
Proof. reflexivity. Qed.

Example clamp_of_text : clamp (PStr " 1_000 ") = 1000.
Proof. reflexivity. Qed.

Example clamp_of_none : clamp PNone = 0.
Proof. reflexivity. Qed.

Example clamp_of_float : clamp (PFloat (S754_finite false 7 (-1))) = 3.
Proof. reflexivity. Qed.

Example slug_of_url :
  parse_repo_slug "https://github.com/octo/demo/" = Some ("octo", "demo").
Proof. reflexivity. Qed.

Example slug_without_name : parse_repo_slug "octo/ " = None.
Proof. reflexivity. Qed.

Example last_page_next_last : _parse_link_last_page header_next_last = Some 345.
Proof. reflexivity. Qed.

Example last_page_without_last :
  _parse_link_last_page "<https://api.github.com/r?page=2>; rel=next" = None.
Proof. reflexivity. Qed.

Example safe_str_newline :
  _safe_str str_blank (PStr ("ab" ++ nl ++ "cd")) 4 = "ab c".
Proof. reflexivity. Qed.

(** ** Clamping *)

Lemma _clamp_int_range (v : PyVal) (lo hi default : Z) :
  lo <= hi -> lo <= default <= hi -> lo <= _clamp_int v lo hi default <= hi.
Proof.
  intros Hlh Hd. unfold _clamp_int.
  destruct (py_int v) as [x|]; [|exact Hd].
  destruct (x <? lo) eqn:E1; [lia|].
  destruct (hi <? x) eqn:E2; lia.
Qed.

Lemma clamp_range (v : PyVal) : 0 <= clamp v <= CLAMP_HI.
Proof. apply _clamp_int_range; unfold CLAMP_HI; lia. Qed.

Lemma clamp_nonneg (v : PyVal) : 0 <= clamp v.
Proof. apply clamp_range. Qed.

(** ** Dictionaries *)

Lemma dict_get_set_same (d : pydict) (k : string) (v : PyVal) :
  dict_get (dict_set d k v) k = v.
Proof.
  induction d as [|[k' v'] d IH]; simpl.
  - now rewrite String.eqb_refl.
  - destruct (k' =? k)%string eqn:E; simpl.
    + now rewrite String.eqb_refl.
    + now rewrite E.
Qed.

Lemma dict_get_set_other (d : pydict) (k k' : string) (v : PyVal) :
  k <> k' -> dict_get (dict_set d k v) k' = dict_get d k'.
Proof.
  intros Hne. induction d as [|[k0 v0] d IH]; simpl.
  - destruct (k =? k')%string eqn:E; [apply String.eqb_eq in E; contradiction | reflexivity].
  - destruct (k0 =? k)%string eqn:E; simpl.
    + apply String.eqb_eq in E. subst k0.
      destruct (k =? k')%string eqn:E'; [apply String.eqb_eq in E'; contradiction | reflexivity].
    + destruct (k0 =? k')%string; [reflexivity | exact IH].
Qed.

Lemma dict_set_twice (d : pydict) (k : string) (v w : PyVal) :
  dict_set (dict_set d k v) k w = dict_set d k w.
Proof.
  induction d as [|[k0 v0] d IH]; simpl.
  - now rewrite String.eqb_refl.
  - destruct (k0 =? k)%string eqn:E; simpl.
    + now rewrite String.eqb_refl.
    + now rewrite E, IH.
Qed.

(** ** The derived total of a traffic series *)

Lemma series_sum_daily (series : list PyVal) (s : Z) :
  series_sum series s = s + daily_sum series.
Proof.
  revert s. induction series as [|it rest IH]; intros s; simpl.
  - unfold daily_sum; simpl. lia.
  - unfold daily_sum in *; simpl.
    destruct it; rewrite IH; simpl; lia.
Qed.

Lemma daily_sum_nonneg (series : list PyVal) : 0 <= daily_sum series.
Proof.
  unfold daily_sum. induction series as [|it rest IH]; simpl; [lia|].
  assert (0 <= entry_count it).
  { destruct it; simpl; try lia. apply clamp_nonneg. }
  lia.
Qed.

(** C1. [_traffic_total_from_series]: on a dict whose series entry is a
    non-empty list the result is the larger of the clamped reported count
    and the sum of the clamped counts of the entries, hence that sum
    whenever the clamped reported count is below it; on a value that is
    not a dict it is 0; on a dict whose series entry is absent, not a list
    or empty it is the clamped reported count. *)
Theorem traffic_total_max_rule (resp : PyVal) (series_key : string) :
  (forall d series,
      resp = PDict d -> dict_get d series_key = PList series -> series <> [] ->
      _traffic_total_from_series resp series_key
        = Z.max (clamp (dict_get d "count")) (daily_sum series)
      /\ (clamp (dict_get d "count") < daily_sum series ->
          _traffic_total_from_series resp series_key = daily_sum series))
  /\ (is_dict resp = false -> _traffic_total_from_series resp series_key = 0)
  /\ (forall d,
      resp = PDict d -> nonempty_list (dict_get d series_key) = false ->
      _traffic_total_from_series resp series_key = clamp (dict_get d "count")).
Proof.
  split; [|split].
  - intros d series -> Hget Hne. unfold _traffic_total_from_series.
    rewrite Hget. destruct series as [|it rest]; [contradiction|].
    rewrite series_sum_daily, Z.add_0_l. split; [reflexivity | lia].
  - destruct resp; intros; try reflexivity; discriminate.
  - intros d -> Hne. unfold _traffic_total_from_series.
    destruct (dict_get d series_key) as [| | | | |l|]; try reflexivity.
    destruct l; [reflexivity | discriminate].
Qed.

Lemma traffic_total_max_rule_witness :
  _traffic_total_from_series
    (PDict [("count", PInt 0);
            ("views", PList [PDict [("count", PInt 3)]; PDict [("count", PInt 4)]])])
    "views" = 7.
Proof.
  apply (proj1 (traffic_total_max_rule
           (PDict [("count", PInt 0);
                   ("views", PList [PDict [("count", PInt 3)];
                                    PDict [("count", PInt 4)]])]) "views")
           [("count", PInt 0);
            ("views", PList [PDict [("count", PInt 3)]; PDict [("count", PInt 4)]])]
           [PDict [("count", PInt 3)]; PDict [("count", PInt 4)]]
           eq_refl eq_refl).
  - discriminate.
  - vm_compute. reflexivity.
Defined.

Lemma traffic_total_nonneg (resp : PyVal) (series_key : string) :
  0 <= _traffic_total_from_series resp series_key.
Proof.
  unfold _traffic_total_from_series.
  destruct resp; try lia.
  pose proof (clamp_nonneg (dict_get d "count")).
  destruct (dict_get d series_key) as [| | | | |l|]; try assumption.
  destruct l; [assumption | ].
  etransitivity; [eassumption | apply Z.le_max_l].
Qed.

(** ** The aggregate block *)

Lemma aggregate_step_dict (n s f w o d vt vu ct cu c : Z) (rd : pydict) :
  aggregate_step (mk_totals n s f w o d vt vu ct cu c) (PDict rd)
  = mk_totals (n + 1) (s + field "stars" rd) (f + field "forks" rd)
      (w + field "watchers" rd) (o + field "open_issues" rd)
      (d + field "release_asset_downloads_total" rd)
      (vt + traffic_field "views" "count" rd)
      (vu + traffic_field "views" "uniques" rd)
      (ct + traffic_field "clones" "count" rd)
      (cu + traffic_field "clones" "uniques" rd)
      (c + field "commits_total" rd).
Proof. reflexivity. Qed.

Lemma aggregate_step_other (t : totals_dict) (r : PyVal) :
  is_dict r = false -> aggregate_step t r = t.
Proof. destruct r; simpl; intros; try reflexivity; discriminate. Qed.

Lemma aggregate_fold (repos : list PyVal) (n s f w o d vt vu ct cu c : Z) :
  fold_left aggregate_step repos (mk_totals n s f w o d vt vu ct cu c)
  = let rs := dicts_of repos in
    mk_totals
      (n + Z.of_nat (List.length rs))
      (s + sum_over (field "stars") rs)
      (f + sum_over (field "forks") rs)
      (w + sum_over (field "watchers") rs)
      (o + sum_over (field "open_issues") rs)
      (d + sum_over (field "release_asset_downloads_total") rs)
      (vt + sum_over (traffic_field "views" "count") rs)
      (vu + sum_over (traffic_field "views" "uniques") rs)
      (ct + sum_over (traffic_field "clones" "count") rs)
      (cu + sum_over (traffic_field "clones" "uniques") rs)
      (c + sum_over (field "commits_total") rs).
Proof.
  revert n s f w o d vt vu ct cu c.
  induction repos as [|r repos IH]; intros.
  - cbn [fold_left dicts_of List.length sum_over map Zsum fold_right].
    unfold mk_totals. repeat rewrite Z.add_0_r. reflexivity.
  - destruct r;
      try (cbn [fold_left dicts_of]; rewrite aggregate_step_other by reflexivity;
           apply IH).
    cbn [fold_left dicts_of]. rewrite aggregate_step_dict, IH.
    cbv zeta. cbn [List.length sum_over map Zsum fold_right].
    rewrite Nat2Z.inj_succ. unfold mk_totals, sum_over, Zsum.
    repeat (apply (f_equal2 cons); [apply (f_equal (pair _)); lia|]).
    reflexivity.
Qed.

Lemma aggregate_loop_spec (repos : list PyVal) :
  aggregate_loop repos = totals_spec (dicts_of repos).
Proof.
  unfold aggregate_loop. change totals_init with (mk_totals 0 0 0 0 0 0 0 0 0 0 0).
  rewrite aggregate_fold. reflexivity.
Qed.

Lemma dicts_of_length (l : list PyVal) :
  List.length (dicts_of l) = List.length (filter is_dict l).
Proof.
  induction l as [|x l IH]; [reflexivity|].
  destruct x; simpl; auto.
Qed.

Lemma dicts_of_skip (pre post : list PyVal) (x : PyVal) :
  is_dict x = false -> dicts_of (pre ++ x :: post) = dicts_of (pre ++ post).
Proof.
  intros Hx. induction pre as [|y pre IH]; simpl.
  - destruct x; try reflexivity; discriminate.
  - destruct y; rewrite ?IH; reflexivity.
Qed.

(** What [aggregate_execute] returns once the loop can run over [items]. *)
Lemma aggregate_execute_items (payload : PyVal) (items : list PyVal) :
  py_iter (py_or (dict_get (dict_or_empty payload) "repos") (PList [])) = Ok items ->
  aggregate_execute payload
  = Ok (PDict (dict_set (dict_or_empty payload) "totals"
                 (totals_value (totals_spec (dicts_of items)))),
        PDict [("ok", PBool true)]).
Proof.
  intros Hit. unfold aggregate_execute. rewrite Hit. simpl.
  now rewrite aggregate_loop_spec.
Qed.

(** C3. Over a payload whose [repos] entry is a list, the aggregate block
    returns the payload with [totals] set to: [repos] = the number of dict
    entries of the list, each top-level counter = the sum over the dict
    entries of the clamped field, each traffic counter = the sum of the
    clamped [count] / [uniques] of the entry's [traffic.views] and
    [traffic.clones] sub-dicts.  Entries that are not dicts count for
    nothing, and over the empty list every total is zero. *)
Theorem aggregate_totals_fieldwise (payload : pydict) (repos : list PyVal) :
  dict_get payload "repos" = PList repos ->
  exists out,
    aggregate_execute (PDict payload) = Ok (PDict out, PDict [("ok", PBool true)])
    /\ dict_get out "totals" = totals_value (totals_spec (dicts_of repos))
    /\ List.length (dicts_of repos) = List.length (filter is_dict repos)
    /\ (forall pre x post,
          repos = (pre ++ x :: post)%list -> is_dict x = false ->
          totals_spec (dicts_of repos) = totals_spec (dicts_of (pre ++ post)))
    /\ (repos = [] ->
          dict_get out "totals" = totals_value (mk_totals 0 0 0 0 0 0 0 0 0 0 0)).
Proof.
  intros Hrepos.
  assert (Hit : py_iter (py_or (dict_get (dict_or_empty (PDict payload)) "repos")
                           (PList [])) = Ok repos).
  { simpl. rewrite Hrepos. destruct repos; reflexivity. }
  eexists. split; [apply (aggregate_execute_items _ _ Hit)|].
  simpl dict_or_empty. rewrite dict_get_set_same.
  split; [reflexivity|]. split; [apply dicts_of_length|]. split.
  - intros pre x post -> Hx. now rewrite dicts_of_skip.
  - intros ->. reflexivity.
Qed.

Lemma aggregate_totals_fieldwise_witness :
  exists out,
    aggregate_execute
      (PDict [("repos", PList [sample_record 3 5; PStr "junk"; sample_record 4 6])])
    = Ok (PDict out, PDict [("ok", PBool true)])
    /\ dict_get out "totals" = totals_value (mk_totals 2 7 0 0 0 0 11 0 0 0 0).
Proof.
  destruct (aggregate_totals_fieldwise
              [("repos", PList [sample_record 3 5; PStr "junk"; sample_record 4 6])]
              [sample_record 3 5; PStr "junk"; sample_record 4 6] eq_refl)
    as (out & Hex & Htot & _).
  exists out. split; [exact Hex | exact Htot].
Defined.

(** C9. The aggregate block is idempotent: run on its own output it
    returns that output again, and the first run changes no entry of the
    payload other than [totals]. *)
Theorem aggregate_idempotent (payload out meta : PyVal) :
  aggregate_execute payload = Ok (out, meta) ->
  aggregate_execute out = Ok (out, meta)
  /\ (forall k, k <> "totals" ->
        dict_get (dict_or_empty out) k = dict_get (dict_or_empty payload) k).
Proof.
  unfold aggregate_execute at 1.
  destruct (py_iter (py_or (dict_get (dict_or_empty payload) "repos") (PList [])))
    as [items|e] eqn:Hit; simpl; [|discriminate].
  intros H. injection H as <- <-. split.
  - rewrite (aggregate_execute_items _ items).
    + simpl dict_or_empty. rewrite dict_set_twice, aggregate_loop_spec. reflexivity.
    + simpl dict_or_empty. rewrite dict_get_set_other by discriminate. exact Hit.
  - intros k Hk. simpl dict_or_empty.
    apply dict_get_set_other. congruence.
Qed.

Lemma aggregate_idempotent_witness :
  aggregate_execute
    (PDict [ ("repos", PList [sample_record 3 5]);
             ("totals", totals_value (mk_totals 1 3 0 0 0 0 5 0 0 0 0)) ])
  = Ok (PDict [ ("repos", PList [sample_record 3 5]);
                ("totals", totals_value (mk_totals 1 3 0 0 0 0 5 0 0 0 0)) ],
        PDict [("ok", PBool true)]).
Proof.
  apply (aggregate_idempotent (PDict [("repos", PList [sample_record 3 5])])).
  reflexivity.
Defined.

(** C10, as stated, fails: a dict payload whose [repos] entry is a non-zero
    number makes the loop raise a [TypeError]. *)
Lemma aggregate_raises_on_number :
  aggregate_execute payload_repos_number
  = Raised (TypeError "'int' object is not iterable")
  /\ ~ (forall payload, exists r, aggregate_execute payload = Ok r).
Proof.
  split; [reflexivity|].
  intros H. destruct (H payload_repos_number) as [r Hr]. discriminate Hr.
Qed.

(** C10, amended. The aggregate block returns normally on every payload
    except a dict whose [repos] entry is true-valued and not iterable (a
    non-zero number or [True]), where the loop raises a [TypeError].  When
    it returns, the output is the payload, taken as empty if it is not a
    dict, with [totals] set; [totals] holds exactly the eleven keys, with
    the counts and sums over the dict entries of the items looped over;
    an entry that is not a dict changes no total; and a field whose value
    [int] does not convert counts as 0. *)
Theorem aggregate_returns_unless_not_iterable (payload : PyVal) :
  let repos := dict_get (dict_or_empty payload) "repos" in
  if negb (truthy repos) || iterable repos
  then exists out items,
      aggregate_execute payload = Ok (PDict out, PDict [("ok", PBool true)])
      /\ py_iter (py_or repos (PList [])) = Ok items
      /\ out = dict_set (dict_or_empty payload) "totals"
                 (totals_value (totals_spec (dicts_of items)))
      /\ dict_get out "totals" = totals_value (totals_spec (dicts_of items))
      /\ map fst (dict_or_empty (dict_get out "totals"))
         = [ "repos"; "stars"; "forks"; "watchers"; "open_issues";
             "release_asset_downloads_total"; "views_14d_total";
             "views_14d_unique"; "clones_14d_total"; "clones_14d_unique";
             "commits_total" ]
      /\ (forall k, k <> "totals" -> dict_get out k = dict_get (dict_or_empty payload) k)
      /\ (is_dict payload = false ->
          out = [("totals", totals_value (mk_totals 0 0 0 0 0 0 0 0 0 0 0))])
      /\ (forall pre x post,
            items = (pre ++ x :: post)%list -> is_dict x = false ->
            totals_spec (dicts_of items) = totals_spec (dicts_of (pre ++ post)))
      /\ (forall r k, py_int (dict_get r k) = None -> field k r = 0)
      /\ (forall r part k,
            py_int (dict_get (dict_or_empty
                                (dict_get (dict_or_empty (dict_get r "traffic")) part))
                      k) = None ->
            traffic_field part k r = 0)
  else aggregate_execute payload
       = Raised (TypeError ("'" ++ type_name repos ++ "' object is not iterable")).
Proof.
  intros repos.
  destruct (negb (truthy repos) || iterable repos) eqn:Hok.
  - assert (Hit : exists items, py_iter (py_or repos (PList [])) = Ok items).
    { unfold py_or. destruct (truthy repos) eqn:Ht; [|eexists; reflexivity].
      simpl in Hok. destruct repos; try discriminate; eexists; reflexivity. }
    destruct Hit as [items Hit].
    exists (dict_set (dict_or_empty payload) "totals"
              (totals_value (totals_spec (dicts_of items)))), items.
    split; [apply (aggregate_execute_items _ _ Hit)|].
    split; [exact Hit|]. split; [reflexivity|].
    split; [apply dict_get_set_same|].
    split; [rewrite dict_get_set_same; reflexivity|].
    split; [intros k Hk; apply dict_get_set_other; congruence|].
    split.
    { intros Hnd.
      assert (Hitems : items = []).
      { subst repos. destruct payload; try discriminate Hnd;
          cbn in Hit; now injection Hit as <-. }
      subst items. destruct payload; try discriminate Hnd; reflexivity. }
    split; [intros pre x post -> Hx; now rewrite dicts_of_skip|].
    split.
    + intros r k Hk. unfold field, clamp, _clamp_int. now rewrite Hk.
    + intros r part k Hk. unfold traffic_field, clamp, _clamp_int. now rewrite Hk.
  - unfold aggregate_execute. fold repos. unfold py_or.
    apply orb_false_iff in Hok. destruct Hok as [Ht Hi].
    apply negb_false_iff in Ht. rewrite Ht.
    destruct repos; try discriminate; reflexivity.
Qed.

(** ** The releases paging loop *)

Lemma pages_from_S (page : Z) (n : nat) :
  pages_from page (S n) = page :: pages_from (page + 1) n.
Proof.
  unfold pages_from. simpl. rewrite Z.add_0_r. f_equal.
  rewrite <- seq_shift, map_map. apply map_ext. intros i. lia.
Qed.

Lemma paging_trace_one (api : Api) (repo_url : string) (page : Z) :
  full_page api repo_url page = false \/ page + 1 > MAX_PAGES ->
  paging_trace api repo_url page [releases_url repo_url page].
Proof.
  intros H. exists 1%nat. repeat split.
  - lia.
  - lia.
  - unfold pages_from; simpl. now rewrite Z.add_0_r.
  - intros i Hi. lia.
  - replace (page + Z.of_nat 1 - 1) with page by lia.
    destruct H; [now left | right; lia].
Qed.

Lemma releases_loop_trace (api : Api) (repo_url : string) (page : Z)
  (releases : list pydict) :
  paging_trace api repo_url page (fst (releases_loop api repo_url page releases)).
Proof.
  funelim (releases_loop api repo_url page releases).
  - apply paging_trace_one. left. unfold full_page. now rewrite Heq.
  - apply paging_trace_one. left. unfold full_page. rewrite Heq0.
    apply orb_true_iff in Heq.
    destruct Heq as [H|H]; apply negb_true_iff in H; rewrite H;
      [reflexivity | now rewrite andb_false_r].
  - apply paging_trace_one. left. unfold full_page. rewrite Heq1, Heq.
    now rewrite andb_false_r.
  - apply paging_trace_one. now right.
  - clear Heqcall Heq.
    assert (Hfull : full_page api repo_url page = true).
    { unfold full_page. rewrite Heq2, Heq0.
      apply orb_false_iff in Heq1. destruct Heq1 as [H1 H2].
      apply negb_false_iff in H1, H2. now rewrite H1, H2. }
    destruct (releases_loop api repo_url (page + 1)
                (releases ++ dicts_of (list_items chunk))) as [urls r].
    simpl in *. destruct H as (k & Hk & Hceil & Hurls & Hfulls & Hlast).
    exists (S k). rewrite pages_from_S. simpl map.
    replace (page + Z.of_nat (S k) - 1) with (page + 1 + Z.of_nat k - 1) by lia.
    repeat split.
    + lia.
    + intros _. apply Hceil. lia.
    + now rewrite Hurls.
    + intros i Hi. destruct i as [|i].
      * now rewrite Z.add_0_r.
      * replace (page + Z.of_nat (S i)) with (page + 1 + Z.of_nat i) by lia.
        apply Hfulls. lia.
    + exact Hlast.
Qed.

(** C8. For every repo the releases loop, entered at page 1 with no
    release gathered, terminates having requested pages 1, 2, ..., n of 100
    entries each, for some n between 1 and 20: every page before the last
    was a non-empty list of at least 100 entries, and the last one either
    was not (the request failed, or the page was not a list, or empty, or
    shorter than 100) or was page 20. *)
Theorem releases_paging_bounded (api : Api) (repo_url : string) :
  exists n : nat,
    (1 <= n <= 20)%nat
    /\ fst (releases_loop api repo_url 1 [])
       = map (fun page => repo_url ++ "/releases?per_page=100&page=" ++ dec page)
           (map Z.of_nat (seq 1 n))
    /\ List.length (fst (releases_loop api repo_url 1 [])) = n
    /\ (forall k, (1 <= k < n)%nat -> full_page api repo_url (Z.of_nat k) = true)
    /\ (full_page api repo_url (Z.of_nat n) = false \/ n = 20%nat).
Proof.
  destruct (releases_loop_trace api repo_url 1 [])
    as (n & Hn & Hceil & Hurls & Hfulls & Hlast).
  unfold MAX_PAGES in *.
  assert (Hurls' : fst (releases_loop api repo_url 1 [])
                   = map (fun page => repo_url ++ "/releases?per_page=100&page=" ++ dec page)
                       (map Z.of_nat (seq 1 n))).
  { rewrite Hurls. unfold pages_from. rewrite <- seq_shift, !map_map.
    apply map_ext. intros i. unfold releases_url. do 3 f_equal. lia. }
  exists n. repeat split.
  - exact Hn.
  - specialize (Hceil ltac:(lia)). lia.
  - exact Hurls'.
  - rewrite Hurls'. now rewrite !length_map, length_seq.
  - intros k Hk. replace (Z.of_nat k) with (1 + Z.of_nat (k - 1)) by lia.
    apply Hfulls. lia.
  - replace (Z.of_nat n) with (1 + Z.of_nat n - 1) by lia.
    destruct Hlast as [H|H]; [now left | right].
    specialize (Hceil ltac:(lia)). lia.
Qed.

(** ** Decimal digits *)

Lemma is_digit_code (c : ascii) :
  is_digit c = true <-> (48 <= code c <= 57)%nat.
Proof.
  unfold is_digit. cbv zeta. rewrite andb_true_iff, !Nat.leb_le. tauto.
Qed.

Lemma digit_not_space (c : ascii) : is_digit c = true -> is_int_space c = false.
Proof.
  intros H. apply is_digit_code in H. unfold is_int_space. cbv zeta.
  repeat match goal with
         | |- context [(?a <=? ?b)%nat] =>
             let E := fresh in destruct (Nat.leb_spec a b) as [E|E]
         | |- context [(?a =? ?b)%nat] =>
             let E := fresh in destruct (Nat.eqb_spec a b) as [E|E]
         end; try reflexivity; lia.
Qed.

Lemma digit_not_char (c d : ascii) :
  is_digit c = true -> is_digit d = false -> (c =? d)%char = false.
Proof.
  intros Hc Hd. apply Ascii.eqb_neq. intros ->. congruence.
Qed.

Lemma digit_val_range (c : ascii) : is_digit c = true -> 0 <= digit_val c <= 9.
Proof. intros H. apply is_digit_code in H. unfold digit_val. lia. Qed.

Lemma digits_number_nonneg (s : string) (acc : Z) :
  all_digits s = true -> 0 <= acc -> 0 <= digits_number s acc.
Proof.
  revert acc. induction s as [|c s IH]; intros acc Hall Hacc;
    cbn [digits_number all_digits] in *; [exact Hacc|].
  apply andb_true_iff in Hall. destruct Hall as [Hc Hs].
  apply IH; [exact Hs|]. pose proof (digit_val_range c Hc). lia.
Qed.

Lemma digits_value_all_digits (s : string) (acc : Z) (after_digit : bool) :
  all_digits s = true -> s <> EmptyString \/ after_digit = true ->
  digits_value s acc after_digit = Some (digits_number s acc).
Proof.
  revert acc after_digit.
  induction s as [|c s IH]; intros acc b Hall Hne;
    cbn [digits_number digits_value all_digits] in *.
  - destruct Hne as [Hne | ->]; [contradiction | reflexivity].
  - apply andb_true_iff in Hall. destruct Hall as [Hc Hs].
    rewrite Hc. apply IH; [exact Hs | now right].
Qed.

Lemma lstrip_digits (s : string) :
  all_digits s = true -> lstrip_by is_int_space s = s.
Proof.
  destruct s as [|c s]; simpl; [reflexivity|].
  intros H. apply andb_true_iff in H. destruct H as [Hc _].
  now rewrite (digit_not_space c Hc).
Qed.

Lemma rstrip_digits (s : string) :
  all_digits s = true -> rstrip_by is_int_space s = s.
Proof.
  induction s as [|c s IH]; simpl; [reflexivity|].
  intros H. apply andb_true_iff in H. destruct H as [Hc Hs].
  rewrite (IH Hs), (digit_not_space c Hc). now destruct s.
Qed.

Lemma digit_count_digits (s : string) :
  all_digits s = true -> digit_count s = Z.of_nat (String.length s).
Proof.
  induction s as [|c s IH]; [reflexivity|].
  cbn [all_digits digit_count String.length]. intros H.
  apply andb_true_iff in H. destruct H as [Hc Hs].
  rewrite Hc, (IH Hs). lia.
Qed.

Lemma int_of_str_digits (s : string) :
  all_digits s = true -> s <> EmptyString ->
  int_of_str s
  = if within_int_limit s then Some (digits_number s 0) else None.
Proof.
  intros Hall Hne. unfold int_of_str, strip_by, within_int_limit.
  rewrite (lstrip_digits s Hall), (rstrip_digits s Hall).
  rewrite (digit_count_digits s Hall). unfold INT_MAX_STR_DIGITS.
  destruct (Z.ltb_spec 4300 (Z.of_nat (String.length s))) as [Hlong|Hshort];
    [destruct (Z.leb_spec (Z.of_nat (String.length s)) 4300); [lia | reflexivity]|].
  destruct (Z.leb_spec (Z.of_nat (String.length s)) 4300); [|lia].
  destruct s as [|c r]; [contradiction|].
  assert (Hc : is_digit c = true).
  { simpl in Hall. now apply andb_true_iff in Hall. }
  rewrite (digit_not_char c "+" Hc eq_refl), (digit_not_char c "-" Hc eq_refl).
  apply digits_value_all_digits; [exact Hall | left; discriminate].
Qed.

Lemma take_digits_all (s : string) : all_digits (take_digits s) = true.
Proof.
  induction s as [|c s IH]; simpl; [reflexivity|].
  destruct (is_digit c) eqn:Hc; [|reflexivity]. simpl. now rewrite Hc.
Qed.

Lemma page_match_here_digits (p ds : string) :
  page_match_here p = Some ds -> all_digits ds = true /\ ds <> EmptyString.
Proof.
  destruct p as [|c p]; cbn [page_match_here]; [discriminate|].
  destruct (((c =? "?")%char || (c =? "&")%char) && prefix "page=" p);
    [|discriminate].
  pose proof (take_digits_all (drop 5 p)) as Hall.
  destruct (take_digits (drop 5 p)) as [|d r]; [discriminate|].
  intros H. injection H as <-. split; [exact Hall | discriminate].
Qed.

Lemma link_page_search_digits (p ds : string) :
  link_page_search p = Some ds -> all_digits ds = true /\ ds <> EmptyString.
Proof.
  induction p as [|c p IH]; cbn [link_page_search].
  - cbn [page_match_here]. discriminate.
  - destruct (page_match_here (String c p)) as [ds'|] eqn:Hm; [|exact IH].
    intros H. injection H as <-. now apply page_match_here_digits in Hm.
Qed.

Lemma last_page_loop_nonneg (parts : list string) (n : Z) :
  last_page_loop parts = Some n -> 0 <= n.
Proof.
  induction parts as [|p rest IH]; simpl; [discriminate|].
  destruct (link_last_search p); [|exact IH].
  destruct (link_page_search p) as [ds|] eqn:Hp; [|exact IH].
  destruct (link_page_search_digits p ds Hp) as [Hall Hne].
  rewrite (int_of_str_digits ds Hall Hne).
  destruct (within_int_limit ds); [|discriminate].
  intros H. injection H as <-.
  apply digits_number_nonneg; [exact Hall | lia].
Qed.

Lemma _parse_link_last_page_nonneg (link_header : string) (n : Z) :
  _parse_link_last_page link_header = Some n -> 0 <= n.
Proof.
  unfold _parse_link_last_page. destruct (nonempty link_header); [|discriminate].
  apply last_page_loop_nonneg.
Qed.

(** ** The fetch block *)

Section FetchProperties.

Variable str_other : PyVal -> string.

Lemma outcome_exactly_one (o : Outcome) :
  (List.length (fetched_of o) + List.length (failed_of o) = 1)%nat.
Proof. destruct o; reflexivity. Qed.

Lemma fetch_fold (api : Api) (token : string) (items : list PyVal)
  (st : FetchState) :
  fold_left (fetch_step str_other api token) items st
  = mkFetchState
      (st_repos st ++ records_of (process_repo str_other api token) items)
      (st_errors st ++ errors_of (process_repo str_other api token) items)
      (st_count st
       + Z.of_nat (List.length
                     (records_of (process_repo str_other api token) items))).
Proof.
  revert st. induction items as [|r items IH]; intros st; simpl.
  - rewrite !app_nil_r, Z.add_0_r. now destruct st.
  - rewrite IH. unfold fetch_step.
    destruct (process_repo str_other api token r); simpl.
    + rewrite <- !app_assoc. simpl. f_equal. lia.
    + rewrite <- !app_assoc. reflexivity.
Qed.

Lemma fetch_loop_outcomes (api : Api) (token : string) (items : list PyVal) :
  fetch_loop str_other api token items
  = mkFetchState
      (records_of (process_repo str_other api token) items)
      (errors_of (process_repo str_other api token) items)
      (Z.of_nat (List.length
                   (records_of (process_repo str_other api token) items))).
Proof. unfold fetch_loop. now rewrite fetch_fold. Qed.

Lemma outcomes_partition (api : Api) (token : string) (items : list PyVal) :
  (List.length (records_of (process_repo str_other api token) items)
   + List.length (errors_of (process_repo str_other api token) items)
   = List.length items)%nat.
Proof.
  induction items as [|r items IH]; [reflexivity|].
  simpl. rewrite !length_app.
  pose proof (outcome_exactly_one (process_repo str_other api token r)). lia.
Qed.

(** *** Which slugs are fetched *)

Lemma py_iter_ok_iff (v : PyVal) :
  (exists items, py_iter v = Ok items) <-> iterable v = true.
Proof.
  split.
  - intros [items H]. destruct v; try discriminate; reflexivity.
  - intros H. destruct v; try discriminate; eexists; reflexivity.
Qed.

Lemma summarize_releases_ok (releases : list pydict) (total : Z)
  (per_release : list PyVal) :
  forallb assets_iterable releases = true ->
  exists summary, summarize_releases str_other releases total per_release = Ok summary.
Proof.
  revert total per_release.
  induction releases as [|rel rest IH]; intros total per_release H; simpl.
  - eexists; reflexivity.
  - simpl in H. apply andb_true_iff in H. destruct H as [Hrel Hrest].
    apply py_iter_ok_iff in Hrel. destruct Hrel as [items Hit].
    rewrite Hit. simpl. now apply IH.
Qed.

Lemma summarize_releases_raises (releases : list pydict) (total : Z)
  (per_release : list PyVal) :
  forallb assets_iterable releases = false ->
  exists e, summarize_releases str_other releases total per_release = Raised e.
Proof.
  revert total per_release.
  induction releases as [|rel rest IH]; intros total per_release H; simpl.
  - discriminate.
  - simpl in H. unfold assets_iterable in H at 1.
    destruct (py_iter (py_or (dict_get rel "assets") (PList []))) as [items|e] eqn:Hit.
    + assert (Hi : iterable (py_or (dict_get rel "assets") (PList [])) = true)
        by (apply py_iter_ok_iff; eauto).
      rewrite Hi in H. simpl in H. simpl. now apply IH.
    + simpl. eauto.
Qed.

Lemma repo_record_dict (full : string) (rd : pydict) (commits : Z * string)
  (langs : PyVal) (releases : list pydict) (summary : Z * list PyVal)
  (tr : pydict * string) :
  exists fields,
    repo_record str_other full (PDict rd) commits langs releases summary tr
    = Ok (PDict (("repo", PStr full) :: fields)).
Proof.
  destruct commits, summary, tr. eexists. reflexivity.
Qed.

Lemma repo_record_not_dict (full : string) (repo : PyVal) (commits : Z * string)
  (langs : PyVal) (releases : list pydict) (summary : Z * list PyVal)
  (tr : pydict * string) :
  is_dict repo = false ->
  repo_record str_other full repo commits langs releases summary tr
  = Raised (AttributeError
              ("'" ++ type_name repo ++ "' object has no attribute 'get'")).
Proof.
  intros H. destruct commits, summary, tr.
  destruct repo; try discriminate; reflexivity.
Qed.

Lemma fetch_repo_fetchable (api : Api) (token owner name : string) :
  slug_fetchable api owner name ->
  exists fields,
    fetch_repo str_other api token owner name
    = Ok (PDict (("repo", PStr (owner ++ "/" ++ name)) :: fields)).
Proof.
  intros (rd & releases & Hmeta & Hrel & Hassets).
  unfold fetch_repo. rewrite Hmeta. simpl bind. rewrite Hrel. simpl bind.
  destruct (summarize_releases_ok releases 0 [] Hassets) as [summary Hs].
  rewrite Hs. simpl bind. apply repo_record_dict.
Qed.

Lemma fetch_repo_not_fetchable (api : Api) (token owner name : string) :
  ~ slug_fetchable api owner name ->
  exists e, fetch_repo str_other api token owner name = Raised e.
Proof.
  intros Hnot. unfold fetch_repo.
  destruct (get_json api (api_repo_url owner name)) as [repo|e] eqn:Hmeta;
    simpl bind; [|eauto].
  destruct (snd (releases_loop api (api_repo_url owner name) 1 []))
    as [releases|e] eqn:Hrel; simpl bind; [|eauto].
  destruct (forallb assets_iterable releases) eqn:Hassets.
  - destruct (summarize_releases_ok releases 0 [] Hassets) as [summary Hs].
    rewrite Hs. simpl bind.
    destruct (is_dict repo) eqn:Hd.
    + destruct repo; try discriminate.
      exfalso. apply Hnot. exists d, releases. auto.
    + rewrite repo_record_not_dict by exact Hd. eauto.
  - destruct (summarize_releases_raises releases 0 [] Hassets) as [e He].
    rewrite He. simpl bind. eauto.
Qed.

Lemma process_repo_unparsed (api : Api) (token : string) (r : PyVal) :
  parse_repo_slug (py_str str_other r) = None ->
  process_repo str_other api token r
  = Failed (error_record (py_str str_other r) "invalid_repo_slug").
Proof. intros H. unfold process_repo. now rewrite H. Qed.

Lemma process_repo_fetchable (api : Api) (token : string) (r : PyVal)
  (owner name : string) :
  parse_repo_slug (py_str str_other r) = Some (owner, name) ->
  slug_fetchable api owner name ->
  exists fields,
    process_repo str_other api token r
    = Fetched (PDict (("repo", PStr (owner ++ "/" ++ name)) :: fields)).
Proof.
  intros Hp Hf. unfold process_repo. rewrite Hp.
  destruct (fetch_repo_fetchable api token owner name Hf) as [fields Hr].
  rewrite Hr. eauto.
Qed.

Lemma process_repo_not_fetchable (api : Api) (token : string) (r : PyVal)
  (owner name : string) :
  parse_repo_slug (py_str str_other r) = Some (owner, name) ->
  ~ slug_fetchable api owner name ->
  exists text,
    process_repo str_other api token r
    = Failed (error_record (owner ++ "/" ++ name) text).
Proof.
  intros Hp Hf. unfold process_repo. rewrite Hp.
  destruct (fetch_repo_not_fetchable api token owner name Hf) as [e Hr].
  rewrite Hr. eauto.
Qed.

Lemma fetch_execute_items (api : Api) (env_token : option string)
  (now : spec_float) (payload : PyVal) (params : pydict)
  (token : string) (items : list PyVal) :
  resolve_token str_other (dict_or_empty payload) params env_token = Ok token ->
  py_iter (py_or (dict_get (dict_or_empty payload) "repos") (PList [])) = Ok items ->
  fetch_execute str_other api env_token now payload params
  = Ok (PDict
          [ ("generated_at", PFloat now);
            ("repos",
              PList (records_of (process_repo str_other api token) items));
            ("errors",
              PList (errors_of (process_repo str_other api token) items)) ],
        PDict
          [ ("token_provided", PBool (nonempty token));
            ("count",
              PInt (Z.of_nat (List.length
                (records_of (process_repo str_other api token) items)))) ]).
Proof.
  intros Ht Hi. unfold fetch_execute. rewrite Ht. simpl bind.
  rewrite Hi. simpl bind. now rewrite fetch_loop_outcomes.
Qed.

(** The block returns whenever the payload's token is a str or false-valued
    and its [repos] entry can be looped over or is false-valued. *)
Lemma fetch_execute_returns (api : Api) (env_token : option string)
  (now : spec_float) (payload : PyVal) (params : pydict) :
  let token := dict_get (dict_or_empty payload) "token" in
  let repos := dict_get (dict_or_empty payload) "repos" in
  (truthy token = true -> exists s, token = PStr s) ->
  negb (truthy repos) || iterable repos = true ->
  exists out meta,
    fetch_execute str_other api env_token now payload params = Ok (out, meta).
Proof.
  intros token repos Htoken Hrepos.
  assert (Ht : exists t, resolve_token str_other (dict_or_empty payload) params
                           env_token = Ok t).
  { unfold resolve_token. fold token. unfold py_or.
    destruct (truthy token) eqn:E.
    - destruct (Htoken eq_refl) as [s ->]. cbn [py_strip bind].
      destruct (dict_get params "token"); eexists; reflexivity.
    - cbn [py_strip bind].
      destruct (dict_get params "token"); eexists; reflexivity. }
  assert (Hi : exists items, py_iter (py_or repos (PList [])) = Ok items).
  { unfold py_or. destruct (truthy repos); [|eexists; reflexivity].
    apply py_iter_ok_iff. exact Hrepos. }
  destruct Ht as [t Ht]. destruct Hi as [items Hi].
  rewrite (fetch_execute_items api env_token now payload params t items Ht Hi).
  eauto.
Qed.

(** C2, amended. Given a list of repos, every element adds exactly one
    entry to the output, to [repos] or to [errors] and never to both: the
    two lists are, in order, the records and the errors of the elements'
    outcomes, and their lengths add up to the length of the input.  An
    element whose slug does not parse is an error under its raw string; an
    element whose slug parses is an error under [owner/name] unless the
    metadata request yields a JSON object, no releases page request fails
    and the [assets] of every release can be looped over, in which case
    it is one record under [owner/name]. *)
Theorem fetch_one_entry_per_repo (api : Api) (env_token : option string)
  (now : spec_float) (payload params : pydict) (items : list PyVal)
  (out meta : PyVal) :
  dict_get payload "repos" = PList items ->
  fetch_execute str_other api env_token now (PDict payload) params = Ok (out, meta) ->
  exists token repos errors,
    dict_get (dict_or_empty out) "repos" = PList repos
    /\ dict_get (dict_or_empty out) "errors" = PList errors
    /\ repos = records_of (process_repo str_other api token) items
    /\ errors = errors_of (process_repo str_other api token) items
    /\ (List.length repos + List.length errors = List.length items)%nat
    /\ (forall r,
          (List.length (fetched_of (process_repo str_other api token r))
           + List.length (failed_of (process_repo str_other api token r)) = 1)%nat
          /\ match parse_repo_slug (py_str str_other r) with
             | None =>
                 process_repo str_other api token r
                 = Failed (error_record (py_str str_other r) "invalid_repo_slug")
             | Some (owner, name) =>
                 (slug_fetchable api owner name ->
                  exists fields,
                    process_repo str_other api token r
                    = Fetched (PDict (("repo", PStr (owner ++ "/" ++ name)) :: fields)))
                 /\ (~ slug_fetchable api owner name ->
                     exists text,
                       process_repo str_other api token r
                       = Failed (error_record (owner ++ "/" ++ name) text))
             end).
Proof.
  intros Hrepos Hex.
  assert (Hit : py_iter (py_or (dict_get (dict_or_empty (PDict payload)) "repos")
                           (PList [])) = Ok items).
  { simpl. rewrite Hrepos. destruct items; reflexivity. }
  destruct (resolve_token str_other (dict_or_empty (PDict payload)) params env_token)
    as [token|e] eqn:Ht.
  - rewrite (fetch_execute_items api env_token now (PDict payload) params
               token items Ht Hit) in Hex.
    injection Hex as <- <-.
    exists token. do 2 eexists.
    split; [reflexivity|]. split; [reflexivity|].
    split; [reflexivity|]. split; [reflexivity|].
    split; [apply outcomes_partition|].
    intros r. split; [apply outcome_exactly_one|].
    destruct (parse_repo_slug (py_str str_other r)) as [[owner name]|] eqn:Hp.
    + split.
      * now apply process_repo_fetchable.
      * now apply process_repo_not_fetchable.
    + now apply process_repo_unparsed.
  - unfold fetch_execute in Hex. rewrite Ht in Hex. discriminate Hex.
Qed.

(** *** The numeric fields of a record *)

Lemma assets_sum_bounds (items : list PyVal) (s : Z) :
  s <= assets_sum items s <= s + CLAMP_HI * Z.of_nat (List.length items).
Proof.
  revert s. induction items as [|x items IH]; intros s.
  - cbn [assets_sum List.length]. lia.
  - cbn [List.length]. rewrite Nat2Z.inj_succ.
    destruct x; cbn [assets_sum];
      try (specialize (IH s); unfold CLAMP_HI in *; lia).
    specialize (IH (s + clamp (dict_get d "download_count"))).
    pose proof (clamp_range (dict_get d "download_count")).
    unfold CLAMP_HI in *. lia.
Qed.

Lemma assets_sum_no_dicts (items : list PyVal) (s : Z) :
  forallb (fun x => negb (is_dict x)) items = true -> assets_sum items s = s.
Proof.
  revert s. induction items as [|x items IH]; intros s H; [reflexivity|].
  cbn [forallb] in H. apply andb_true_iff in H. destruct H as [Hx Hr].
  destruct x; try discriminate; cbn [assets_sum]; now apply IH.
Qed.

Lemma py_iter_not_list (v : PyVal) (items : list PyVal) :
  py_iter v = Ok items -> is_list v = false ->
  forallb (fun x => negb (is_dict x)) items = true.
Proof.
  intros Hit Hl. destruct v; try discriminate; simpl in Hit; injection Hit as <-.
  - induction (list_ascii_of_string s); simpl; auto.
  - induction d; simpl; auto.
Qed.

Lemma release_entry_ok (rel : pydict) (assets : PyVal) (items : list PyVal) :
  py_iter assets = Ok items ->
  release_counters_ok (release_entry str_other rel assets (assets_sum items 0))
  /\ downloads_of (release_entry str_other rel assets (assets_sum items 0))
     = assets_sum items 0.
Proof.
  intros Hit. split; [|reflexivity].
  exists (Z.of_nat (List.length (list_items assets))), (assets_sum items 0).
  split; [reflexivity|]. split; [reflexivity|]. split; [lia|].
  destruct (is_list assets) eqn:Hl.
  - destruct assets; try discriminate. simpl in Hit. injection Hit as <-.
    simpl list_items. pose proof (assets_sum_bounds l 0). lia.
  - rewrite (assets_sum_no_dicts items 0 (py_iter_not_list _ _ Hit Hl)).
    unfold CLAMP_HI. lia.
Qed.

Lemma Zsum_map_snoc {A : Type} (f : A -> Z) (l : list A) (x : A) :
  Zsum (map f (l ++ [x])) = Zsum (map f l) + f x.
Proof.
  unfold Zsum. induction l as [|y l IH]; simpl; [lia|].
  rewrite IH. lia.
Qed.

Lemma summarize_releases_counters (releases : list pydict) (total : Z)
  (per_release : list PyVal) (total' : Z) (per_release' : list PyVal) :
  summarize_releases str_other releases total per_release
    = Ok (total', per_release') ->
  Forall release_counters_ok per_release ->
  total = Zsum (map downloads_of per_release) ->
  Forall release_counters_ok per_release'
  /\ total' = Zsum (map downloads_of per_release').
Proof.
  revert total per_release.
  induction releases as [|rel rest IH]; intros total per_release H Hok Htot.
  - simpl in H. injection H as <- <-. auto.
  - cbn [summarize_releases] in H.
    destruct (py_iter (py_or (dict_get rel "assets") (PList [])))
      as [items|e] eqn:Hit; [|discriminate].
    cbn [bind] in H.
    destruct (release_entry_ok rel _ items Hit) as [Hentry Hdl].
    apply IH in H; [exact H | |].
    + apply Forall_app. split; [exact Hok | now constructor].
    + rewrite Zsum_map_snoc, Hdl. lia.
Qed.

Lemma fetch_commits_nonneg (api : Api) (repo_url : string) :
  0 <= fst (fetch_commits str_other api repo_url).
Proof.
  unfold fetch_commits.
  destruct (get_json_with_headers api (repo_url ++ "/commits?per_page=1"))
    as [[commits_json headers]|e]; [|simpl; lia].
  destruct commits_json; try (simpl; lia).
  destruct (_parse_link_last_page (link_header_of headers)) as [n|] eqn:Hp.
  - simpl. now apply _parse_link_last_page_nonneg in Hp.
  - simpl. lia.
Qed.

(** What [fetch_repo] went through when it returned a record. *)
Lemma fetch_repo_inv (api : Api) (token owner name : string) (record : PyVal) :
  fetch_repo str_other api token owner name = Ok record ->
  exists rd releases summary,
    get_json api (api_repo_url owner name) = Ok (PDict rd)
    /\ snd (releases_loop api (api_repo_url owner name) 1 []) = Ok releases
    /\ summarize_releases str_other releases 0 [] = Ok summary
    /\ repo_record str_other (owner ++ "/" ++ name) (PDict rd)
         (fetch_commits str_other api (api_repo_url owner name))
         (fetch_languages api (api_repo_url owner name))
         releases summary
         (fetch_traffic str_other api token (api_repo_url owner name))
       = Ok record.
Proof.
  unfold fetch_repo.
  destruct (get_json api (api_repo_url owner name)) as [repo|e] eqn:Hmeta;
    cbn [bind]; [|discriminate].
  destruct (snd (releases_loop api (api_repo_url owner name) 1 []))
    as [releases|e] eqn:Hrel; cbn [bind]; [|discriminate].
  destruct (summarize_releases str_other releases 0 []) as [summary|e] eqn:Hsum;
    cbn [bind]; [|discriminate].
  intros H. destruct (is_dict repo) eqn:Hd.
  - destruct repo; try discriminate.
    exists d, releases, summary. auto.
  - rewrite repo_record_not_dict in H by exact Hd. discriminate.
Qed.

Lemma fetch_repo_ok_fetchable (api : Api) (token owner name : string)
  (record : PyVal) :
  fetch_repo str_other api token owner name = Ok record ->
  slug_fetchable api owner name.
Proof.
  intros H. apply fetch_repo_inv in H.
  destruct H as (rd & releases & summary & Hmeta & Hrel & Hsum & _).
  exists rd, releases. repeat split; [exact Hmeta | exact Hrel |].
  destruct (forallb assets_iterable releases) eqn:Hassets; [reflexivity|].
  destruct (summarize_releases_raises releases 0 [] Hassets) as [e He].
  congruence.
Qed.

(** C4, amended. In every record the block appends, [stars], [forks],
    [watchers], [open_issues] and [size_kb] lie within [0, 2000000000];
    [commits_total], [views_14d_total], [clones_14d_total] and
    [release_asset_downloads_total] are non-negative; each release's
    [assets_count] is non-negative and its [assets_downloads] lies
    between 0 and 2000000000 times its [assets_count]; and
    [release_asset_downloads_total] is the sum of the releases'
    [assets_downloads]. *)
Theorem record_numeric_fields (api : Api) (token : string) (r record : PyVal) :
  process_repo str_other api token r = Fetched record ->
  int_field record "stars" in_clamp_range
  /\ int_field record "forks" in_clamp_range
  /\ int_field record "watchers" in_clamp_range
  /\ int_field record "open_issues" in_clamp_range
  /\ int_field record "size_kb" in_clamp_range
  /\ int_field record "commits_total" (fun z => 0 <= z)
  /\ int_field record "views_14d_total" (fun z => 0 <= z)
  /\ int_field record "clones_14d_total" (fun z => 0 <= z)
  /\ exists per_release,
       dict_get (dict_or_empty record) "releases" = PList per_release
       /\ Forall release_counters_ok per_release
       /\ int_field record "release_asset_downloads_total"
            (fun z => 0 <= z /\ z = Zsum (map downloads_of per_release)).
Proof.
  unfold process_repo.
  destruct (parse_repo_slug (py_str str_other r)) as [[owner name]|];
    [|discriminate].
  destruct (fetch_repo str_other api token owner name) as [rec|e] eqn:Hf;
    [|discriminate].
  intros H. injection H as <-.
  apply fetch_repo_inv in Hf.
  destruct Hf as (rd & releases & [total per_release] & _ & _ & Hsum & Hrec).
  pose proof (fetch_commits_nonneg api (api_repo_url owner name)) as Hc.
  destruct (fetch_commits str_other api (api_repo_url owner name))
    as [commits_total commits_err].
  destruct (fetch_traffic str_other api token (api_repo_url owner name))
    as [traffic traffic_err].
  destruct (summarize_releases_counters _ _ _ _ _ Hsum (Forall_nil _) eq_refl)
    as [Hper Htot].
  cbn in Hrec. injection Hrec as <-.
  unfold int_field, in_clamp_range. cbn [dict_or_empty].
  repeat match goal with
         | |- _ /\ _ => split
         | |- exists z, dict_get _ _ = PInt z /\ _ =>
             eexists; split; [reflexivity|]
         end; try apply clamp_range; try exact Hc.
  - destruct traffic; [lia | apply traffic_total_nonneg].
  - destruct traffic; [lia | apply traffic_total_nonneg].
  - exists per_release. split; [reflexivity|]. split; [exact Hper|].
    eexists; split; [reflexivity|]. split; [|exact Htot].
    rewrite Htot. clear - Hper. unfold Zsum.
    induction Hper as [|x l Hx Hl IH]; simpl; [lia|].
    destruct Hx as (c & d & _ & Hd & _ & Hrange).
    unfold downloads_of at 1. rewrite Hd. simpl. lia.
Qed.

(** *** A failing commits call *)

Lemma client_error_text (api : Api) (url : string) (e : PyExc) :
  get_json_with_headers api url = Raised e ->
  exists rest, exc_str e = String "G" rest.
Proof.
  unfold get_json_with_headers.
  destruct (api url); intros H; try discriminate;
    injection H as <-; eexists; reflexivity.
Qed.

Lemma _safe_str_nonempty (c : ascii) (rest : string) (n : nat) :
  _safe_str str_other (PStr (String c rest)) (S n) <> EmptyString.
Proof. unfold _safe_str. simpl. discriminate. Qed.

Lemma fetch_commits_failed (api : Api) (owner name : string) (e : PyExc) :
  get_json_with_headers api (commits_url owner name) = Raised e ->
  fetch_commits str_other api (api_repo_url owner name)
  = (0, _safe_str str_other (PStr (exc_str e)) 1200)
  /\ _safe_str str_other (PStr (exc_str e)) 1200 <> EmptyString.
Proof.
  intros H. unfold fetch_commits. fold (commits_url owner name). rewrite H.
  split; [reflexivity|].
  destruct (client_error_text _ _ _ H) as [rest ->].
  apply _safe_str_nonempty.
Qed.

Lemma append_inj_l (u a b : string) : u ++ a = u ++ b -> a = b.
Proof.
  induction u as [|c u IH]; simpl; [auto|].
  intros H. injection H as H. auto.
Qed.

Lemma append_neq_self (u a : string) : a <> EmptyString -> u <> u ++ a.
Proof.
  intros Ha H. apply Ha. apply (append_inj_l u).
  rewrite <- H. clear. induction u; simpl; congruence.
Qed.

Lemma releases_url_not_commits (owner name : string) (page : Z) :
  releases_url (api_repo_url owner name) page <> commits_url owner name.
Proof.
  unfold releases_url, commits_url. intros H.
  apply append_inj_l in H. discriminate H.
Qed.

Lemma repo_url_not_commits (owner name : string) :
  api_repo_url owner name <> commits_url owner name.
Proof. apply append_neq_self. discriminate. Qed.

(** The loop only looks at the responses to the releases URLs. *)
Lemma releases_loop_ext (api api' : Api) (repo_url : string) (page : Z)
  (releases : list pydict) :
  (forall p, api (releases_url repo_url p) = api' (releases_url repo_url p)) ->
  releases_loop api repo_url page releases
  = releases_loop api' repo_url page releases.
Proof.
  intros Hagree.
  assert (Hg : forall p, get_json api' (releases_url repo_url p)
                         = get_json api (releases_url repo_url p)).
  { intros p. unfold get_json, get_json_with_headers. now rewrite Hagree. }
  funelim (releases_loop api repo_url page releases);
    clear Heqcall; rewrite (releases_loop_equation_1 api'), Hg;
    repeat (unfold_clause; rewrite_scrutinee); try reflexivity.
  rewrite <- (H api' Hagree Hg). reflexivity.
Qed.

Lemma slug_fetchable_ext (api api' : Api) (owner name : string) :
  same_but_commits api api' owner name ->
  slug_fetchable api owner name -> slug_fetchable api' owner name.
Proof.
  intros Hsame (rd & releases & Hmeta & Hrel & Hassets).
  exists rd, releases. repeat split; [| |exact Hassets].
  - unfold get_json, get_json_with_headers in *.
    now rewrite <- (Hsame _ (repo_url_not_commits owner name)).
  - rewrite <- Hrel. f_equal. symmetry. apply releases_loop_ext.
    intros p. apply Hsame. apply releases_url_not_commits.
Qed.

(** C6, amended. Take a slug whose metadata request succeeds and whose
    commits request fails.  Whether the slug ends in [repos] or in
    [errors] is what it would be with any other answer to the commits
    request; and when the rest of its processing completes (the metadata
    is a JSON object, no releases page request fails, every release's
    [assets] can be looped over) the block appends a record for it with
    [commits_total] equal to 0 and a non-empty [commits_error]. *)
Theorem commits_failure_absorbed (api : Api) (token : string) (r : PyVal)
  (owner name : string) (repo : PyVal) (e : PyExc) :
  parse_repo_slug (py_str str_other r) = Some (owner, name) ->
  get_json api (api_repo_url owner name) = Ok repo ->
  get_json_with_headers api (commits_url owner name) = Raised e ->
  (forall api',
      same_but_commits api api' owner name ->
      (slug_fetchable api owner name <-> slug_fetchable api' owner name)
      /\ ((exists record, process_repo str_other api token r = Fetched record)
          <-> (exists record, process_repo str_other api' token r = Fetched record)))
  /\ (slug_fetchable api owner name ->
      exists record text,
        process_repo str_other api token r = Fetched record
        /\ dict_get (dict_or_empty record) "repo" = PStr (owner ++ "/" ++ name)
        /\ dict_get (dict_or_empty record) "commits_total" = PInt 0
        /\ dict_get (dict_or_empty record) "commits_error" = PStr text
        /\ text = _safe_str str_other (PStr (exc_str e)) 1200
        /\ text <> EmptyString)
  /\ (forall record,
        process_repo str_other api token r = Fetched record ->
        dict_get (dict_or_empty record) "commits_total" = PInt 0
        /\ exists text,
             dict_get (dict_or_empty record) "commits_error" = PStr text
             /\ text <> EmptyString).
Proof.
  intros Hp Hmeta Hcommits.
  destruct (fetch_commits_failed api owner name e Hcommits) as [Hfc Hne].
  assert (Hrecord : forall record,
             process_repo str_other api token r = Fetched record ->
             dict_get (dict_or_empty record) "repo" = PStr (owner ++ "/" ++ name)
             /\ dict_get (dict_or_empty record) "commits_total" = PInt 0
             /\ dict_get (dict_or_empty record) "commits_error"
                = PStr (_safe_str str_other (PStr (exc_str e)) 1200)).
  { intros record. unfold process_repo. rewrite Hp.
    destruct (fetch_repo str_other api token owner name) as [rec|e'] eqn:Hf;
      [|discriminate].
    intros H. injection H as <-. apply fetch_repo_inv in Hf.
    destruct Hf as (rd & releases & [total per_release] & _ & _ & _ & Hrec).
    rewrite Hfc in Hrec.
    destruct (fetch_traffic str_other api token (api_repo_url owner name))
      as [traffic traffic_err].
    cbn in Hrec. injection Hrec as <-. repeat split. }
  split; [|split].
  - intros api' Hsame.
    assert (Hsame' : same_but_commits api' api owner name).
    { intros url Hurl. symmetry. now apply Hsame. }
    assert (Hiff : slug_fetchable api owner name <-> slug_fetchable api' owner name).
    { split; now apply slug_fetchable_ext. }
    split; [exact Hiff|].
    assert (Hkind : forall a,
               (exists record, process_repo str_other a token r = Fetched record)
               <-> slug_fetchable a owner name).
    { intros a. split.
      - intros [record Hrec]. unfold process_repo in Hrec. rewrite Hp in Hrec.
        destruct (fetch_repo str_other a token owner name) as [rec|e'] eqn:Hf;
          [|discriminate].
        now apply fetch_repo_ok_fetchable in Hf.
      - intros Hf.
        destruct (process_repo_fetchable a token r owner name Hp Hf) as [fields Hr].
        eauto. }
    rewrite !Hkind. exact Hiff.
  - intros Hf.
    destruct (process_repo_fetchable api token r owner name Hp Hf) as [fields Hr].
    destruct (Hrecord _ Hr) as (H1 & H2 & H3).
    do 2 eexists. split; [exact Hr|]. repeat split; eauto.
  - intros record Hr. destruct (Hrecord _ Hr) as (H1 & H2 & H3).
    split; [exact H2|]. eauto.
Qed.

(** *** Two runs against the same API *)

(** C7. Run twice against the same mapping from URLs to responses, on
    the same payload and environment, with the clock reading [now1] and
    then [now2], the fetch-then-aggregate pipeline either raises the same
    exception both times or returns two dicts with the same keys in the
    same order that agree on every entry but [generated_at]: [repos],
    [errors] and [totals] are equal, and the second result is the first
    with [generated_at] set to the second reading. *)
Theorem pipeline_deterministic (api : Api) (env_token : option string)
  (payload : PyVal) (now1 now2 : spec_float) :
  match fetch_then_aggregate str_other api env_token now1 payload,
        fetch_then_aggregate str_other api env_token now2 payload with
  | Ok out1, Ok out2 =>
      exists d1 d2,
        out1 = PDict d1 /\ out2 = PDict d2
        /\ dict_get d1 "repos" = dict_get d2 "repos"
        /\ dict_get d1 "errors" = dict_get d2 "errors"
        /\ dict_get d1 "totals" = dict_get d2 "totals"
        /\ dict_get d1 "generated_at" = PFloat now1
        /\ dict_get d2 "generated_at" = PFloat now2
        /\ map fst d1 = ["generated_at"; "repos"; "errors"; "totals"]
        /\ map fst d2 = map fst d1
        /\ (forall k, k <> "generated_at" -> dict_get d1 k = dict_get d2 k)
        /\ d2 = dict_set d1 "generated_at" (PFloat now2)
  | Raised e1, Raised e2 => e1 = e2
  | _, _ => False
  end.
Proof.
  unfold fetch_then_aggregate.
  destruct (resolve_token str_other (dict_or_empty payload) [] env_token)
    as [token|e] eqn:Ht.
  2: { unfold fetch_execute. rewrite Ht. reflexivity. }
  destruct (py_iter (py_or (dict_get (dict_or_empty payload) "repos") (PList [])))
    as [items|e] eqn:Hi.
  2: { unfold fetch_execute. rewrite Ht. cbn [bind]. rewrite Hi. reflexivity. }
  rewrite !(fetch_execute_items api env_token _ payload [] token items Ht Hi).
  cbn [bind fst].
  set (repos := records_of _ items). set (errors := errors_of _ items).
  rewrite !(aggregate_execute_items _ repos)
    by (cbn; destruct repos; reflexivity).
  cbn [bind fst dict_or_empty].
  set (totals := totals_value _).
  assert (Hset : forall now,
             dict_set [ ("generated_at", PFloat now); ("repos", PList repos);
                        ("errors", PList errors) ] "totals" totals
             = [ ("generated_at", PFloat now); ("repos", PList repos);
                 ("errors", PList errors); ("totals", totals) ])
    by reflexivity.
  rewrite !Hset.
  do 2 eexists. split; [reflexivity|]. split; [reflexivity|].
  repeat split.
  intros k Hk. cbn [dict_get].
  destruct (String.eqb_spec "generated_at" k) as [E|E];
    [congruence | reflexivity].
Qed.

End FetchProperties.

(** ** Concrete runs *)

(** C2, as stated, fails: the slug parses and every request succeeds, the
    metadata one included, yet the element is recorded as an error, once
    because the metadata is not a JSON object and once because a release's
    [assets] entry cannot be looped over. *)
Lemma fetch_error_without_failed_request :
  parse_repo_slug "octo/demo" = Some ("octo", "demo")
  /\ (forall url, api_empty_lists url = RespJson (PList []) [])
  /\ process_repo str_blank api_empty_lists "" (PStr "octo/demo")
     = Failed (error_record "octo/demo" "'list' object has no attribute 'get'")
  /\ (forall url, exists data, api_assets_number url = RespJson data [])
  /\ process_repo str_blank api_assets_number "" (PStr "octo/demo")
     = Failed (error_record "octo/demo" "'int' object is not iterable").
Proof.
  split; [reflexivity|]. split; [reflexivity|].
  split; [vm_compute; reflexivity|]. split; [|vm_compute; reflexivity].
  intros url. unfold api_assets_number.
  destruct (url =? demo_url)%string; [eexists; reflexivity|].
  destruct (url =? demo_url ++ "/releases?per_page=100&page=1")%string;
    eexists; reflexivity.
Qed.

Lemma fetch_one_entry_per_repo_witness :
  exists out meta repos errors,
    fetch_execute str_blank api_demo None now0 (PDict demo_payload) [] = Ok (out, meta)
    /\ dict_get (dict_or_empty out) "repos" = PList repos
    /\ dict_get (dict_or_empty out) "errors" = PList errors
    /\ (List.length repos + List.length errors = 3)%nat.
Proof.
  eassert (Hrun : fetch_execute str_blank api_demo None now0 (PDict demo_payload) []
                  = Ok (_, _))
    by (vm_compute; reflexivity).
  destruct (fetch_one_entry_per_repo str_blank api_demo None now0 demo_payload []
              _ _ _ eq_refl Hrun)
    as (token & repos & errors & Hr & He & _ & _ & Hlen & _).
  do 2 eexists. exists repos, errors.
  split; [exact Hrun|]. split; [exact Hr|]. split; [exact He | exact Hlen].
Defined.

(** C4, as stated, fails: with two assets at the clamp bound the release's
    [assets_downloads] and the record's [release_asset_downloads_total]
    are twice the bound. *)
Lemma record_downloads_exceed_clamp :
  exists record,
    process_repo str_blank api_demo "" (PStr "octo/demo") = Fetched record
    /\ dict_get (dict_or_empty record) "release_asset_downloads_total"
       = PInt 4000000000
    /\ dict_get (dict_or_empty record) "releases"
       = PList [ PDict [ ("tag", PStr "v1"); ("name", PStr "");
                         ("published_at", PStr ""); ("assets_count", PInt 2);
                         ("assets_downloads", PInt 4000000000) ] ]
    /\ ~ 4000000000 <= CLAMP_HI.
Proof.
  eexists. split; [vm_compute; reflexivity|].
  split; [reflexivity|]. split; [reflexivity|].
  unfold CLAMP_HI. lia.
Qed.

Lemma record_numeric_fields_witness :
  exists record,
    process_repo str_blank api_demo "" (PStr "octo/demo") = Fetched record
    /\ int_field record "stars" in_clamp_range
    /\ int_field record "forks" in_clamp_range.
Proof.
  eassert (Hrun : process_repo str_blank api_demo "" (PStr "octo/demo") = Fetched _)
    by (vm_compute; reflexivity).
  destruct (record_numeric_fields str_blank api_demo "" (PStr "octo/demo") _ Hrun)
    as (Hstars & Hforks & _).
  eexists. split; [exact Hrun|]. split; [exact Hstars | exact Hforks].
Defined.

(** C6, as stated, fails: the metadata request succeeds, the commits
    request fails, and so does the request for the first releases page,
    which puts the slug in the error list. *)
Lemma commits_and_releases_fail :
  parse_repo_slug "octo/demo" = Some ("octo", "demo")
  /\ get_json api_rate_limited (api_repo_url "octo" "demo")
     = Ok (PDict [("stargazers_count", PInt 7)])
  /\ (exists e, get_json_with_headers api_rate_limited (commits_url "octo" "demo")
                = Raised e)
  /\ process_repo str_blank api_rate_limited "" (PStr "octo/demo")
     = Failed
         (error_record "octo/demo"
            ("GitHub API HTTP 403: " ++ demo_url
             ++ "/releases?per_page=100&page=1 rate limit exceeded")).
Proof.
  split; [reflexivity|]. split; [reflexivity|].
  split; [eexists; reflexivity|]. vm_compute. reflexivity.
Qed.

Lemma commits_failure_absorbed_witness :
  exists record text,
    process_repo str_blank api_commits_down "" (PStr "octo/demo") = Fetched record
    /\ dict_get (dict_or_empty record) "commits_total" = PInt 0
    /\ dict_get (dict_or_empty record) "commits_error" = PStr text
    /\ text <> EmptyString.
Proof.
  assert (Hf : slug_fetchable api_commits_down "octo" "demo").
  { exists [("stargazers_count", PInt 7)], []. repeat split. }
  destruct (commits_failure_absorbed str_blank api_commits_down "" (PStr "octo/demo")
              "octo" "demo" (PDict [("stargazers_count", PInt 7)])
              (RuntimeError ("GitHub API error: " ++ commits_url "octo" "demo"
                             ++ nl ++ "timed out"))
              eq_refl eq_refl eq_refl)
    as (_ & Hrec & _).
  destruct (Hrec Hf) as (record & text & Hrun & _ & Htotal & Herr & _ & Hne).
  exists record, text. auto.
Defined.

(** ** The pagination helper *)

Lemma prefix_app (a s : string) :
  prefix a s = true <-> exists r, s = a ++ r.
Proof.
  revert s. induction a as [|c a IH]; intros s.
  - split; [intros _; now exists s | intros _; now destruct s].
  - destruct s as [|d s]; simpl.
    + split; [discriminate | intros [r H]; discriminate].
    + destruct (ascii_dec c d) as [->|Hne].
      * rewrite IH. split; intros [r H]; exists r; congruence.
      * split; [discriminate | intros [r H]; congruence].
Qed.

Lemma prefix_ci_app (pat s : string) :
  prefix_ci pat s = true <-> exists m b, s = m ++ b /\ map_chars lower m = pat.
Proof.
  revert s. induction pat as [|c pat IH]; intros s; simpl.
  - split; [intros _; now exists EmptyString, s|reflexivity].
  - destruct s as [|d s].
    + split; [discriminate|].
      intros (m & b & H & Hm). destruct m; discriminate.
    + rewrite andb_true_iff, IH, Ascii.eqb_eq. split.
      * intros [<- (m & b & -> & <-)]. exists (String d m), b. split; reflexivity.
      * intros (m & b & H & Hm). destruct m as [|x m]; [discriminate|].
        simpl in H, Hm. injection H as -> ->. injection Hm as <- <-.
        split; [reflexivity|]. exists m, b. split; reflexivity.
Qed.

Lemma link_last_search_marked (p : string) :
  link_last_search p = true <-> marked_last p.
Proof.
  unfold marked_last. induction p as [|c p IH].
  - cbn [link_last_search]. rewrite orb_false_r, prefix_ci_app. split.
    + intros (m & b & H & Hm). now exists EmptyString, m, b.
    + intros (a & m & b & H & Hm). destruct a; [|discriminate]. now exists m, b.
  - cbn [link_last_search]. rewrite orb_true_iff, prefix_ci_app, IH. split.
    + intros [(m & b & H & Hm) | (a & m & b & -> & Hm)].
      * now exists EmptyString, m, b.
      * now exists (String c a), m, b.
    + intros (a & m & b & H & Hm). destruct a as [|x a].
      * left. now exists m, b.
      * right. simpl in H. injection H as -> ->. now exists a, m, b.
Qed.

Lemma take_digits_run (ds b : string) :
  all_digits ds = true -> starts_with_digit b = false -> take_digits (ds ++ b) = ds.
Proof.
  intros Hall Hb. induction ds as [|c ds IH]; simpl.
  - destruct b as [|d b]; [reflexivity|]. simpl in *. now rewrite Hb.
  - simpl in Hall. apply andb_true_iff in Hall. destruct Hall as [Hc Hds].
    now rewrite Hc, IH.
Qed.

Lemma take_digits_rest (s : string) :
  exists b, s = take_digits s ++ b /\ starts_with_digit b = false.
Proof.
  induction s as [|c s IH]; simpl.
  - now exists EmptyString.
  - destruct (is_digit c) eqn:Hc.
    + destruct IH as (b & Hs & Hb). exists b. simpl. now rewrite <- Hs.
    + exists (String c s). simpl. now rewrite Hc.
Qed.

Lemma drop_page (r : string) : drop 5 ("page=" ++ r) = r.
Proof. reflexivity. Qed.

Lemma page_match_here_param (p ds : string) :
  page_match_here p = Some ds <-> exists b, page_param p EmptyString ds b.
Proof.
  unfold page_param. split.
  - destruct p as [|c p]; cbn [page_match_here]; [discriminate|].
    destruct (((c =? "?")%char || (c =? "&")%char)) eqn:Hc; [|discriminate].
    destruct (prefix "page=" p) eqn:Hp; [|discriminate]. cbn [andb].
    apply prefix_app in Hp. destruct Hp as [r ->]. rewrite drop_page.
    destruct (take_digits_rest r) as (b & Hr & Hb).
    pose proof (take_digits_all r) as Hall.
    destruct (take_digits r) as [|d ds'] eqn:Htd; [discriminate|].
    intros H. injection H as <-.
    exists b, c. rewrite <- Hr. repeat split; try assumption; try discriminate.
    apply orb_true_iff in Hc. rewrite !Ascii.eqb_eq in Hc. exact Hc.
  - intros (b & c & -> & Hc & Hall & Hne & Hb).
    change (EmptyString ++ String c ("page=" ++ ds ++ b))
      with (String c ("page=" ++ ds ++ b)).
    cbn [page_match_here].
    assert (Hsep : ((c =? "?")%char || (c =? "&")%char) = true).
    { apply orb_true_iff. rewrite !Ascii.eqb_eq. exact Hc. }
    rewrite Hsep.
    assert (Hp : prefix "page=" ("page=" ++ ds ++ b) = true)
      by (apply prefix_app; eauto).
    rewrite Hp, drop_page, (take_digits_run ds b Hall Hb). cbn [andb].
    destruct ds; [contradiction | reflexivity].
Qed.

Lemma page_param_cons (c : ascii) (p a ds b : string) :
  page_param (String c p) (String c a) ds b <-> page_param p a ds b.
Proof.
  unfold page_param. split; intros (x & H & Hrest); exists x; split; try exact Hrest.
  - simpl in H. now injection H.
  - simpl. now rewrite H.
Qed.

Lemma page_param_head (p a ds b : string) :
  page_param p a ds b ->
  match a with
  | EmptyString => page_match_here p = Some ds
  | String x a' => exists p', p = String x p' /\ page_param p' a' ds b
  end.
Proof.
  intros H. destruct a as [|x a'].
  - apply page_match_here_param. eauto.
  - destruct H as (c & -> & Hrest). eexists. split; [reflexivity|].
    exists c. split; [reflexivity | exact Hrest].
Qed.

Lemma link_page_search_none (p : string) :
  link_page_search p = None -> forall a ds b, ~ page_param p a ds b.
Proof.
  induction p as [|c p IH]; cbn [link_page_search]; intros Hs a ds b Hp.
  - apply page_param_head in Hp. destruct a as [|x a'].
    + cbn in Hp. discriminate.
    + destruct Hp as (p' & H & _). discriminate.
  - destruct (page_match_here (String c p)) as [ds'|] eqn:Hm; [discriminate|].
    apply page_param_head in Hp. destruct a as [|x a'].
    + congruence.
    + destruct Hp as (p' & H & Hp'). injection H as -> ->.
      exact (IH Hs a' ds b Hp').
Qed.

Lemma link_page_search_leftmost (p ds : string) :
  link_page_search p = Some ds ->
  exists a b,
    page_param p a ds b
    /\ forall a' ds' b', page_param p a' ds' b' ->
         (String.length a <= String.length a')%nat.
Proof.
  induction p as [|c p IH]; cbn [link_page_search].
  - cbn [page_match_here]. discriminate.
  - destruct (page_match_here (String c p)) as [ds0|] eqn:Hm.
    + intros H. injection H as ->.
      apply page_match_here_param in Hm. destruct Hm as [b Hb].
      exists EmptyString, b. split; [exact Hb|]. intros. simpl. lia.
    + intros Hs. destruct (IH Hs) as (a & b & Hp & Hleft).
      exists (String c a), b. split; [now apply page_param_cons|].
      intros a' ds' b' Hp'. apply page_param_head in Hp'.
      destruct a' as [|x a''].
      * congruence.
      * destruct Hp' as (p' & H & Hp''). injection H as -> ->.
        simpl. apply le_n_S. exact (Hleft _ _ _ Hp'').
Qed.

Lemma append_inj_length (a a' x x' : string) :
  String.length a = String.length a' -> a ++ x = a' ++ x' -> a = a' /\ x = x'.
Proof.
  revert a'. induction a as [|c a IH]; intros [|c' a'] Hlen H;
    try discriminate; simpl in *.
  - auto.
  - injection Hlen as Hlen. injection H as -> H.
    destruct (IH a' Hlen H) as [-> ->]. auto.
Qed.

Lemma page_param_same_offset (p a a' ds ds' b b' : string) :
  page_param p a ds b -> page_param p a' ds' b' ->
  String.length a = String.length a' -> ds = ds'.
Proof.
  intros (c & Hp & _ & Hall & _ & Hb) (c' & Hp' & _ & Hall' & _ & Hb') Hlen.
  rewrite Hp in Hp'. apply (append_inj_length _ _ _ _ Hlen) in Hp'.
  destruct Hp' as [_ H]. injection H as _ H.
  rewrite <- (take_digits_run ds b Hall Hb), H.
  now apply take_digits_run.
Qed.

Lemma leftmost_page_search (p ds : string) :
  leftmost_page_digits p ds ->
  link_page_search p = Some ds
  /\ int_of_str ds = if within_int_limit ds then Some (digits_number ds 0) else None.
Proof.
  intros (a & b & Hp & Hleft).
  destruct (link_page_search p) as [ds'|] eqn:Hs.
  - destruct (link_page_search_leftmost p ds' Hs) as (a' & b' & Hp' & Hleft').
    assert (Hlen : String.length a = String.length a').
    { apply Nat.le_antisymm; [exact (Hleft _ _ _ Hp') | exact (Hleft' _ _ _ Hp)]. }
    rewrite <- (page_param_same_offset p a a' ds ds' b b' Hp Hp' Hlen).
    split; [reflexivity|].
    destruct Hp as (c & _ & _ & Hall & Hne & _).
    now apply int_of_str_digits.
  - exfalso. exact (link_page_search_none p Hs a ds b Hp).
Qed.

Lemma not_last_with_page (q : string) :
  ~ last_with_page q ->
  link_last_search q = false \/ link_page_search q = None.
Proof.
  intros Hnot. destruct (link_last_search q) eqn:Hl; [|now left]. right.
  destruct (link_page_search q) as [ds|] eqn:Hs; [|reflexivity].
  exfalso. apply Hnot. split; [now apply link_last_search_marked|].
  destruct (link_page_search_leftmost q ds Hs) as (a & b & Hp & _).
  exists (digits_number ds 0), a, ds, b. auto.
Qed.

Lemma last_page_loop_skip (pre rest : list string) :
  (forall q, In q pre -> ~ last_with_page q) ->
  last_page_loop (pre ++ rest) = last_page_loop rest.
Proof.
  induction pre as [|q pre IH]; intros H; [reflexivity|].
  cbn [app last_page_loop].
  assert (Hrest : last_page_loop (pre ++ rest) = last_page_loop rest).
  { apply IH. intros q' Hq'. apply H. now right. }
  destruct (not_last_with_page q (H q (or_introl eq_refl))) as [Hl|Hs].
  - now rewrite Hl.
  - rewrite Hs. now destruct (link_last_search q).
Qed.

Lemma link_parts_nonempty (link_header : string) :
  link_parts link_header <> [] -> nonempty link_header = true.
Proof. destruct link_header; [intros H; now contradiction H | reflexivity]. Qed.

Lemma first_occurrence (p : string) (l : list string) :
  In p l -> exists pre post, l = (pre ++ p :: post)%list /\ ~ In p pre.
Proof.
  induction l as [|x l IH]; [contradiction|].
  intros Hin. destruct (string_dec x p) as [->|Hne].
  - exists [], l. auto.
  - destruct Hin as [->|Hin]; [contradiction|].
    destruct (IH Hin) as (pre & post & -> & Hpre).
    exists (x :: pre), post. split; [reflexivity|].
    intros [H|H]; [contradiction | auto].
Qed.

Lemma carries_page_leftmost (p : string) (n : Z) :
  carries_page p n -> exists ds, leftmost_page_digits p ds.
Proof.
  intros (a & ds & b & Hp & _).
  destruct (link_page_search p) as [ds'|] eqn:Hs.
  - destruct (link_page_search_leftmost p ds' Hs) as (a' & b' & Hp' & Hleft).
    exists ds', a', b'. auto.
  - exfalso. exact (link_page_search_none p Hs a ds b Hp).
Qed.

Lemma link_page_search_leftmost_page (p ds : string) :
  link_page_search p = Some ds -> leftmost_page_digits p ds.
Proof.
  intros Hs.
  destruct (link_page_search_leftmost p ds Hs) as (a & b & Hp & Hleft).
  exists a, b. auto.
Qed.

(** C5, as stated, fails: the second entry is marked [rel="last"] and
    carries [page=5], and the helper returns 3, the page of the first. *)
Lemma last_page_two_marked_entries :
  In (entry_last "5") (link_parts header_two_last)
  /\ marked_last (entry_last "5")
  /\ carries_page (entry_last "5") 5
  /\ _parse_link_last_page header_two_last = Some 3.
Proof.
  split; [vm_compute; auto|]. split; [|split].
  - exists "<https://api.github.com/r?page=5>; ", REL_LAST, EmptyString.
    split; reflexivity.
  - exists "<https://api.github.com/r", "5", (">; " ++ REL_LAST).
    split; [|reflexivity]. exists "?"%char.
    split; [reflexivity|]. split; [now left|].
    split; [reflexivity|]. split; [discriminate | reflexivity].
  - vm_compute. reflexivity.
Qed.

(** The limit of [int] is met: a marked entry whose page number has 4301
    digits yields [None], one of 4300 digits a page number. *)
Example last_page_beyond_int_limit :
  _parse_link_last_page (entry_last_nines 4301) = None
  /\ _parse_link_last_page (entry_last_nines 4300) = Some (10 ^ 4300 - 1).
Proof. split; vm_compute; reflexivity. Qed.

(** C5, amended. The helper returns the page number of the first
    comma-separated entry that is marked [rel="last"] (in any letter case)
    and carries a page parameter, read from the leftmost page parameter of
    that entry, when the digit run of that parameter has at most 4300
    digits, and [None] when it has more ([int] raises on it); so when the
    entries so marked that carry a page parameter are all the same entry,
    and that entry carries no other page number than N and no digit run of
    more than 4300 digits, it returns N.  When no entry is marked
    [rel="last"] and carries a page parameter (the empty header included)
    it returns [None]. *)
Theorem last_page_of_first_marked_entry (link_header : string) :
  (forall pre p post ds,
      link_parts link_header = (pre ++ p :: post)%list ->
      (forall q, In q pre -> ~ last_with_page q) ->
      marked_last p -> leftmost_page_digits p ds ->
      _parse_link_last_page link_header
      = if within_int_limit ds then Some (digits_number ds 0) else None)
  /\ (forall p n,
      In p (link_parts link_header) ->
      marked_last p -> carries_page p n ->
      (forall q, In q (link_parts link_header) -> last_with_page q -> q = p) ->
      (forall m, carries_page p m -> m = n) ->
      (forall a ds b, page_param p a ds b -> within_int_limit ds = true) ->
      _parse_link_last_page link_header = Some n)
  /\ ((forall q, In q (link_parts link_header) -> ~ last_with_page q) ->
      _parse_link_last_page link_header = None).
Proof.
  assert (Hfirst : forall pre p post ds,
             link_parts link_header = (pre ++ p :: post)%list ->
             (forall q, In q pre -> ~ last_with_page q) ->
             marked_last p -> leftmost_page_digits p ds ->
             _parse_link_last_page link_header
             = if within_int_limit ds then Some (digits_number ds 0) else None).
  { intros pre p post ds Hparts Hpre Hmark Hleft.
    unfold _parse_link_last_page.
    rewrite link_parts_nonempty by (rewrite Hparts; now destruct pre).
    rewrite Hparts, (last_page_loop_skip pre _ Hpre).
    cbn [last_page_loop].
    apply link_last_search_marked in Hmark. rewrite Hmark.
    destruct (leftmost_page_search p ds Hleft) as [-> Hint].
    exact Hint. }
  split; [exact Hfirst|]. split.
  - intros p n Hin Hmark Hcarry Honly Hvalue Hlimit.
    destruct (first_occurrence p _ Hin) as (pre & post & Hparts & Hpre).
    destruct (carries_page_leftmost p n Hcarry) as [ds Hds].
    assert (Hn : digits_number ds 0 = n).
    { apply Hvalue. destruct Hds as (a & b & Hp & _). now exists a, ds, b. }
    assert (Hl : within_int_limit ds = true).
    { destruct Hds as (a & b & Hp & _). exact (Hlimit a ds b Hp). }
    rewrite (Hfirst pre p post ds Hparts); [now rewrite Hl, Hn | | exact Hmark | exact Hds].
    intros q Hq Hlast. apply Hpre.
    rewrite <- (Honly q); [exact Hq | | exact Hlast].
    rewrite Hparts. apply in_or_app. now left.
  - intros Hnone. unfold _parse_link_last_page.
    destruct (nonempty link_header); [|reflexivity].
    rewrite <- (app_nil_r (link_parts link_header)).
    now rewrite (last_page_loop_skip _ [] Hnone).
Qed.

Lemma last_page_of_first_marked_entry_witness :
  _parse_link_last_page header_next_last = Some 345.
Proof.
  refine (proj1 (last_page_of_first_marked_entry header_next_last)
           [ "<https://api.github.com/r?per_page=1&page=2>; rel="
             ++ String dquote "next" ++ String dquote EmptyString ]
           ("<https://api.github.com/r?per_page=1&page=345>; REL="
            ++ String dquote "Last" ++ String dquote EmptyString)
           [] "345" eq_refl _ _ _).
  - intros q [<-|[]] [Hmark _].
    apply link_last_search_marked in Hmark. discriminate Hmark.
  - apply link_last_search_marked. reflexivity.
  - apply link_page_search_leftmost_page. reflexivity.
Defined.

(** * Further properties *)

(** ** [_clamp_int] *)

Lemma _clamp_int_fixed (x lo hi default : Z) :
  lo <= x <= hi -> _clamp_int (PInt x) lo hi default = x.
Proof.
  intros H. unfold _clamp_int. cbn [py_int].
  destruct (Z.ltb_spec x lo); [lia|]. destruct (Z.ltb_spec hi x); lia.
Qed.

(** X1. [_clamp_int] with [lo <= hi]: a value that converts lands in
    [lo, hi] and is kept when it already lies there; clamping is monotone
    and clamping a clamped value changes nothing; a value that does not
    convert yields the default as it is, inside the range or not. *)
Theorem clamp_int_monotone_idempotent (lo hi : Z) :
  lo <= hi ->
  (forall v default x,
      py_int v = Some x ->
      lo <= _clamp_int v lo hi default <= hi
      /\ (lo <= x <= hi -> _clamp_int v lo hi default = x)
      /\ (forall default',
            _clamp_int (PInt (_clamp_int v lo hi default)) lo hi default'
            = _clamp_int v lo hi default))
  /\ (forall x y default default',
        x <= y ->
        _clamp_int (PInt x) lo hi default <= _clamp_int (PInt y) lo hi default')
  /\ (forall v default, py_int v = None -> _clamp_int v lo hi default = default).
Proof.
  intros Hlh. split; [|split].
  - intros v default x Hx.
    assert (Hrange : lo <= _clamp_int v lo hi default <= hi).
    { unfold _clamp_int. rewrite Hx.
      destruct (Z.ltb_spec x lo); [lia|]. destruct (Z.ltb_spec hi x); lia. }
    split; [exact Hrange|]. split.
    + intros Hin. unfold _clamp_int. rewrite Hx.
      destruct (Z.ltb_spec x lo); [lia|]. destruct (Z.ltb_spec hi x); lia.
    + intros default'. apply _clamp_int_fixed. exact Hrange.
  - intros x y default default' Hxy. unfold _clamp_int. cbn [py_int].
    destruct (Z.ltb_spec x lo), (Z.ltb_spec y lo),
      (Z.ltb_spec hi x), (Z.ltb_spec hi y); lia.
  - intros v default Hnone. unfold _clamp_int. now rewrite Hnone.
Qed.

Lemma clamp_int_monotone_idempotent_witness :
  _clamp_int (PInt (_clamp_int (PStr "250") 0 100 7)) 0 100 0 = 100
  /\ _clamp_int PNone 0 100 250 = 250.
Proof.
  destruct (clamp_int_monotone_idempotent 0 100 ltac:(lia)) as (Hconv & _ & Hnone).
  destruct (Hconv (PStr "250") 7 250 eq_refl) as (_ & _ & Hidem).
  split; [rewrite Hidem; reflexivity | apply Hnone; reflexivity].
Defined.

(** ** [_safe_str] *)

Lemma take_length (n : nat) (s : string) : (String.length (take n s) <= n)%nat.
Proof.
  revert s. induction n as [|n IH]; intros s; simpl; [lia|].
  destruct s as [|c s]; simpl; [lia|]. specialize (IH s). lia.
Qed.

Lemma take_all (n : nat) (s : string) :
  (String.length s <= n)%nat -> take n s = s.
Proof.
  revert s. induction n as [|n IH]; intros s H.
  - destruct s; [reflexivity | simpl in H; lia].
  - destruct s as [|c s]; [reflexivity|]. simpl in *. rewrite IH; [reflexivity | lia].
Qed.

Lemma all_chars_take (p : ascii -> bool) (n : nat) (s : string) :
  all_chars p s = true -> all_chars p (take n s) = true.
Proof.
  revert s. induction n as [|n IH]; intros s H; [reflexivity|].
  destruct s as [|c s]; [reflexivity|]. simpl in *.
  apply andb_true_iff in H. destruct H as [Hc Hs]. now rewrite Hc, IH.
Qed.

Lemma newline_to_space_single_line (s : string) :
  single_line (map_chars newline_to_space s) = true.
Proof.
  unfold single_line. induction s as [|c s IH]; [reflexivity|].
  cbn [map_chars all_chars]. rewrite IH, andb_true_r.
  unfold newline_to_space, is_newline.
  destruct ((code c =? 13) || (code c =? 10))%nat eqn:E; [reflexivity|].
  now rewrite E.
Qed.

Lemma newline_to_space_id (s : string) :
  single_line s = true -> map_chars newline_to_space s = s.
Proof.
  unfold single_line. induction s as [|c s IH]; [reflexivity|].
  cbn [map_chars all_chars]. intros H. apply andb_true_iff in H.
  destruct H as [Hc Hs]. rewrite (IH Hs). f_equal.
  unfold newline_to_space. unfold is_newline in Hc.
  apply negb_true_iff in Hc. now rewrite Hc.
Qed.

Lemma _safe_str_text (str_other : PyVal -> string) (s : string) (n : nat) :
  _safe_str str_other (PStr s) n = take n (map_chars newline_to_space s).
Proof. reflexivity. Qed.

Lemma _safe_str_bounds (str_other : PyVal -> string) (v : PyVal) (n : nat) :
  (String.length (_safe_str str_other v n) <= n)%nat
  /\ single_line (_safe_str str_other v n) = true.
Proof.
  unfold _safe_str. split; [apply take_length|].
  apply all_chars_take. apply newline_to_space_single_line.
Qed.

(** X2. [_safe_str(v, n)] is at most [n] characters long and holds no
    carriage return or line feed; it returns a str of at most [n]
    characters without line breaks unchanged, [None] as the empty str, and
    applying it again with the same bound changes nothing. *)
Theorem safe_str_bounded_single_line (str_other : PyVal -> string)
  (v : PyVal) (n : nat) :
  (String.length (_safe_str str_other v n) <= n)%nat
  /\ single_line (_safe_str str_other v n) = true
  /\ (forall s, v = PStr s -> (String.length s <= n)%nat -> single_line s = true ->
        _safe_str str_other v n = s)
  /\ _safe_str str_other PNone n = EmptyString
  /\ _safe_str str_other (PStr (_safe_str str_other v n)) n = _safe_str str_other v n.
Proof.
  destruct (_safe_str_bounds str_other v n) as [Hlen Hline].
  split; [exact Hlen|]. split; [exact Hline|]. split; [|split].
  - intros s -> Hs Hl. rewrite _safe_str_text, (newline_to_space_id s Hl).
    now apply take_all.
  - unfold _safe_str. now destruct n.
  - rewrite _safe_str_text, (newline_to_space_id _ Hline). now apply take_all.
Qed.

(** ** Stripping, searching and replacing *)

Lemma lstrip_by_starts_clean (p : ascii -> bool) (s : string) :
  starts_clean p (lstrip_by p s) = true.
Proof.
  induction s as [|c s IH]; [reflexivity|]. cbn [lstrip_by].
  destruct (p c) eqn:E; [exact IH|]. cbn. now rewrite E.
Qed.

Lemma lstrip_by_id (p : ascii -> bool) (s : string) :
  starts_clean p s = true -> lstrip_by p s = s.
Proof.
  destruct s as [|c s]; [reflexivity|]. cbn. intros H.
  apply negb_true_iff in H. now rewrite H.
Qed.

Lemma rstrip_by_starts_clean (p : ascii -> bool) (s : string) :
  starts_clean p s = true -> starts_clean p (rstrip_by p s) = true.
Proof.
  destruct s as [|c s]; [reflexivity|]. cbn [starts_clean rstrip_by]. intros H.
  destruct (rstrip_by p s); [|exact H].
  apply negb_true_iff in H. rewrite H. cbn. now rewrite H.
Qed.

Lemma rstrip_by_idem (p : ascii -> bool) (s : string) :
  rstrip_by p (rstrip_by p s) = rstrip_by p s.
Proof.
  induction s as [|c s IH]; [reflexivity|]. cbn [rstrip_by].
  destruct (rstrip_by p s) as [|d r] eqn:E.
  - destruct (p c) eqn:Ec; [reflexivity|]. cbn. now rewrite Ec.
  - change (rstrip_by p (String c (String d r)))
      with (match rstrip_by p (String d r) with
            | EmptyString => if p c then EmptyString else String c EmptyString
            | String a r0 => String c (String a r0)
            end).
    now rewrite IH.
Qed.

Lemma strip_by_idem (p : ascii -> bool) (s : string) :
  strip_by p (strip_by p s) = strip_by p s.
Proof.
  unfold strip_by. rewrite lstrip_by_id.
  - apply rstrip_by_idem.
  - apply rstrip_by_starts_clean, lstrip_by_starts_clean.
Qed.

Lemma strip_by_clean (p : ascii -> bool) (s : string) :
  all_chars (fun c => negb (p c)) s = true -> strip_by p s = s.
Proof.
  intros H. unfold strip_by. rewrite lstrip_by_id.
  - induction s as [|c s IH]; [reflexivity|]. cbn [all_chars] in H.
    apply andb_true_iff in H. destruct H as [Hc Hs]. cbn [rstrip_by].
    rewrite (IH Hs). apply negb_true_iff in Hc. rewrite Hc. now destruct s.
  - destruct s as [|c s]; [reflexivity|]. cbn [all_chars] in H.
    now apply andb_true_iff in H.
Qed.

Lemma contains_char_app (ch : ascii) (a b : string) :
  contains_char ch (a ++ b) = contains_char ch a || contains_char ch b.
Proof.
  induction a as [|c a IH]; [reflexivity|]. cbn. now rewrite IH, orb_assoc.
Qed.

Lemma contains_char_lstrip (ch : ascii) (p : ascii -> bool) (s : string) :
  contains_char ch s = false -> contains_char ch (lstrip_by p s) = false.
Proof.
  induction s as [|c s IH]; [reflexivity|]. cbn [lstrip_by]. intros H.
  destruct (p c); [|exact H]. apply IH. cbn in H.
  now apply orb_false_iff in H.
Qed.

Lemma contains_char_rstrip (ch : ascii) (p : ascii -> bool) (s : string) :
  contains_char ch s = false -> contains_char ch (rstrip_by p s) = false.
Proof.
  induction s as [|c s IH]; [reflexivity|]. cbn [rstrip_by contains_char].
  intros H. apply orb_false_iff in H. destruct H as [Hc Hs]. specialize (IH Hs).
  destruct (rstrip_by p s) as [|d r].
  - destruct (p c); [reflexivity|]. cbn. now rewrite Hc.
  - cbn [contains_char]. cbn [contains_char] in IH. now rewrite Hc, IH.
Qed.

Lemma contains_char_strip (ch : ascii) (p : ascii -> bool) (s : string) :
  contains_char ch s = false -> contains_char ch (strip_by p s) = false.
Proof.
  intros H. unfold strip_by. now apply contains_char_rstrip, contains_char_lstrip.
Qed.

Lemma split_once_no_char (ch : ascii) (s : string) :
  contains_char ch (fst (split_once ch s)) = false.
Proof.
  induction s as [|c s IH]; [reflexivity|]. cbn [split_once].
  destruct (c =? ch)%char eqn:E; [reflexivity|].
  destruct (split_once ch s) as [a b]. cbn in *. now rewrite E, IH.
Qed.

Lemma split_once_app (ch : ascii) (a b : string) :
  contains_char ch a = false -> split_once ch (a ++ String ch b) = (a, b).
Proof.
  induction a as [|c a IH]; intros H.
  - cbn. now rewrite Ascii.eqb_refl.
  - cbn in H. apply orb_false_iff in H. destruct H as [Hc Ha].
    cbn. rewrite Hc, (IH Ha). reflexivity.
Qed.

(** A pattern that holds a character [s] lacks does not occur in [s]. *)
Lemma replace_no_occurrence (ch : ascii) (pat rep s : string) :
  contains_char ch pat = true -> contains_char ch s = false ->
  replace pat rep s = s.
Proof.
  intros Hpat. unfold replace. induction s as [|c s IH]; intros Hs; [reflexivity|].
  cbn [replace_from].
  destruct (prefix pat (String c s)) eqn:Hp.
  - apply prefix_app in Hp. destruct Hp as [r Hr].
    rewrite Hr, contains_char_app, Hpat in Hs. discriminate Hs.
  - f_equal. apply IH. cbn in Hs. now apply orb_false_iff in Hs.
Qed.

Lemma replace_from_skip (pat rep a b : string) :
  replace_from pat rep (a ++ b) (String.length a) = replace_from pat rep b 0.
Proof. induction a as [|c a IH]; [reflexivity|]. cbn. exact IH. Qed.

(** The first occurrence is replaced, and the search goes on after it. *)
Lemma replace_at_head (c : ascii) (pat rep s : string) :
  replace (String c pat) rep (String c pat ++ s) = rep ++ replace (String c pat) rep s.
Proof.
  unfold replace. cbn [append replace_from].
  assert (Hp : prefix (String c pat) (String c (pat ++ s)) = true).
  { apply prefix_app. now exists s. }
  rewrite Hp. f_equal. cbn [String.length]. rewrite Nat.sub_1_r. cbn [Nat.pred].
  apply replace_from_skip.
Qed.

(** ** [parse_repo_slug] *)

(** X3. Whenever [parse_repo_slug] returns a pair, both parts are
    non-empty and carry no whitespace at either end, and the owner holds
    no slash. *)
Theorem parse_repo_slug_sound (s owner name : string) :
  parse_repo_slug s = Some (owner, name) ->
  owner <> EmptyString /\ name <> EmptyString
  /\ strip owner = owner /\ strip name = name
  /\ contains_char "/" owner = false.
Proof.
  unfold parse_repo_slug.
  destruct (nonempty (strip s)); [|discriminate].
  destruct (contains_char "/" (strip_slash (replace "https://github.com/" "" (strip s))));
    [|discriminate].
  pose proof (split_once_no_char "/"
                (strip_slash (replace "https://github.com/" "" (strip s)))) as Hno.
  destruct (split_once "/" (strip_slash (replace "https://github.com/" "" (strip s))))
    as [o n].
  cbn [fst] in Hno.
  destruct (nonempty (strip o)) eqn:Eo; [|discriminate].
  destruct (nonempty (strip n)) eqn:En; [|discriminate].
  cbn [andb]. intros H. injection H as <- <-.
  unfold nonempty in Eo, En. apply negb_true_iff in Eo, En.
  apply String.eqb_neq in Eo, En.
  repeat split; try assumption.
  - apply strip_by_idem.
  - apply strip_by_idem.
  - now apply contains_char_strip.
Qed.

Lemma parse_repo_slug_sound_witness :
  parse_repo_slug " https://github.com/octo / demo/ " = Some ("octo", "demo")
  /\ strip "octo" = "octo" /\ contains_char "/" "octo" = false.
Proof.
  destruct (parse_repo_slug_sound " https://github.com/octo / demo/ " "octo" "demo"
              eq_refl) as (_ & _ & Ho & _ & Hs).
  split; [reflexivity|]. split; [exact Ho | exact Hs].
Defined.

Lemma all_chars_app (p : ascii -> bool) (a b : string) :
  all_chars p (a ++ b) = all_chars p a && all_chars p b.
Proof.
  induction a as [|c a IH]; [reflexivity|]. cbn. now rewrite IH, andb_assoc.
Qed.

Lemma all_chars_weaken (p q : ascii -> bool) (s : string) :
  (forall c, p c = true -> q c = true) ->
  all_chars p s = true -> all_chars q s = true.
Proof.
  intros Hpq. induction s as [|c s IH]; [reflexivity|]. cbn. intros H.
  apply andb_true_iff in H. destruct H as [Hc Hs]. now rewrite (Hpq c Hc), IH.
Qed.

Lemma all_chars_not_contains (ch : ascii) (s : string) :
  all_chars (fun c => negb (c =? ch)%char) s = true -> contains_char ch s = false.
Proof.
  induction s as [|c s IH]; [reflexivity|]. cbn. intros H.
  apply andb_true_iff in H. destruct H as [Hc Hs].
  apply negb_true_iff in Hc. now rewrite Hc, IH.
Qed.

Lemma append_assoc_s (a b c : string) : (a ++ b) ++ c = a ++ b ++ c.
Proof. induction a as [|x a IH]; [reflexivity|]. cbn. now rewrite IH. Qed.

Lemma rstrip_by_app_clean (p : ascii -> bool) (x n : string) :
  all_chars (fun c => negb (p c)) n = true -> n <> EmptyString ->
  rstrip_by p (x ++ n) = x ++ n.
Proof.
  intros Hn Hne. induction x as [|c x IH].
  - cbn [append]. pose proof (strip_by_clean p n Hn) as H. unfold strip_by in H.
    rewrite lstrip_by_id in H; [exact H|].
    destruct n as [|d n]; [reflexivity|]. cbn in Hn. now apply andb_true_iff in Hn.
  - cbn [append rstrip_by]. rewrite IH.
    destruct (x ++ n) eqn:E; [|reflexivity].
    destruct x; [cbn in E; contradiction | discriminate E].
Qed.

Lemma rstrip_by_app_all (p : ascii -> bool) (y t : string) :
  all_chars p t = true -> rstrip_by p (y ++ t) = rstrip_by p y.
Proof.
  intros Ht. induction y as [|c y IH].
  - cbn [append]. induction t as [|d t IHt]; [reflexivity|].
    cbn in Ht. apply andb_true_iff in Ht. destruct Ht as [Hd Ht].
    cbn [rstrip_by]. now rewrite (IHt Ht), Hd.
  - cbn [append rstrip_by]. now rewrite IH.
Qed.

Lemma slug_text_facts (s : string) :
  slug_text s = true ->
  s <> EmptyString
  /\ all_chars (fun c => negb (is_space c)) s = true
  /\ all_chars (fun c => negb (c =? "/")%char) s = true
  /\ all_chars (fun c => negb (c =? ":")%char) s = true.
Proof.
  unfold slug_text, slug_char. intros H. apply andb_true_iff in H.
  destruct H as [Hne Hall]. split.
  - intros ->. discriminate Hne.
  - repeat split; revert Hall; apply all_chars_weaken; intros c Hc;
      apply andb_true_iff in Hc; destruct Hc as [Hc H3];
      apply andb_true_iff in Hc; destruct Hc as [H1 H2]; assumption.
Qed.

Lemma eqb_slash_sym (s : string) :
  all_chars (fun c => negb (c =? "/")%char) s = true ->
  all_chars (fun c => negb (("/" =? c)%char)) s = true.
Proof.
  apply all_chars_weaken. intros c. now rewrite Ascii.eqb_sym.
Qed.

(** The bare form of a slug is left alone by [strip("/")], and a trailing
    slash is removed by it. *)
Lemma strip_slash_slug (owner name : string) :
  slug_text owner = true -> slug_text name = true ->
  strip_slash (owner ++ String "/" name) = owner ++ String "/" name
  /\ strip_slash (owner ++ String "/" (name ++ "/")) = owner ++ String "/" name.
Proof.
  intros Ho Hn.
  destruct (slug_text_facts owner Ho) as (Hone & _ & Hoslash & _).
  destruct (slug_text_facts name Hn) as (Hnne & _ & Hnslash & _).
  assert (Hclean : forall r,
             starts_clean (Ascii.eqb "/") (owner ++ r) = true).
  { intros r. destruct owner as [|c o]; [contradiction|].
    cbn [starts_clean append all_chars] in *.
    apply andb_true_iff in Hoslash. destruct Hoslash as [Hc _].
    now rewrite Ascii.eqb_sym. }
  assert (Hbare : rstrip_by (Ascii.eqb "/") (owner ++ String "/" name)
                  = owner ++ String "/" name).
  { change (owner ++ String "/" name) with (owner ++ "/" ++ name).
    rewrite <- append_assoc_s.
    apply rstrip_by_app_clean; [now apply eqb_slash_sym | exact Hnne]. }
  unfold strip_slash, strip_by. rewrite !lstrip_by_id by apply Hclean. split.
  - exact Hbare.
  - change (owner ++ String "/" (name ++ "/")) with (owner ++ ("/" ++ name) ++ "/").
    rewrite <- append_assoc_s, rstrip_by_app_all by reflexivity.
    exact Hbare.
Qed.

(** What [parse_repo_slug] returns once the normalised text is known. *)
Lemma parse_repo_slug_normalised (s owner name : string) :
  all_chars (fun c => negb (is_space c)) s = true -> s <> EmptyString ->
  strip_slash (replace HOST_PREFIX EmptyString s) = owner ++ String "/" name ->
  slug_text owner = true -> slug_text name = true ->
  parse_repo_slug s = Some (owner, name).
Proof.
  intros Hs Hne Hnorm Ho Hn.
  destruct (slug_text_facts owner Ho) as (Hone & Hospace & Hoslash & _).
  destruct (slug_text_facts name Hn) as (Hnne & Hnspace & _ & _).
  unfold parse_repo_slug, strip. rewrite (strip_by_clean is_space s Hs).
  assert (Ens : nonempty s = true) by (destruct s; [contradiction | reflexivity]).
  rewrite Ens. fold HOST_PREFIX. rewrite Hnorm.
  rewrite contains_char_app. cbn [contains_char]. rewrite Ascii.eqb_refl.
  rewrite orb_true_r.
  rewrite (split_once_app "/" owner name (all_chars_not_contains "/" owner Hoslash)).
  rewrite (strip_by_clean is_space owner Hospace).
  rewrite (strip_by_clean is_space name Hnspace).
  destruct owner; [contradiction|]. destruct name; [contradiction|]. reflexivity.
Qed.

(** X4. For an owner and a name that are non-empty and hold no
    whitespace, slash or colon, the bare form [owner/name], the URL form
    with the host prefix, and either of them with a trailing slash all
    parse to the pair (owner, name). *)
Theorem parse_repo_slug_forms (owner name : string) :
  slug_text owner = true -> slug_text name = true ->
  parse_repo_slug (owner ++ "/" ++ name) = Some (owner, name)
  /\ parse_repo_slug (HOST_PREFIX ++ owner ++ "/" ++ name) = Some (owner, name)
  /\ parse_repo_slug (owner ++ "/" ++ name ++ "/") = Some (owner, name)
  /\ parse_repo_slug (HOST_PREFIX ++ owner ++ "/" ++ name ++ "/") = Some (owner, name).
Proof.
  intros Ho Hn.
  destruct (slug_text_facts owner Ho) as (Hone & Hospace & Hoslash & Hocolon).
  destruct (slug_text_facts name Hn) as (Hnne & Hnspace & Hnslash & Hncolon).
  destruct (strip_slash_slug owner name Ho Hn) as [Hbare Htrail].
  assert (Hspace : forall tail,
             all_chars (fun c => negb (is_space c)) tail = true ->
             all_chars (fun c => negb (is_space c)) (owner ++ "/" ++ name ++ tail) = true).
  { intros tail Ht. rewrite !all_chars_app, Hospace, Hnspace, Ht. reflexivity. }
  assert (Hcolon : forall tail,
             contains_char ":" tail = false ->
             contains_char ":" (owner ++ "/" ++ name ++ tail) = false).
  { intros tail Ht.
    rewrite !contains_char_app, (all_chars_not_contains ":" owner Hocolon),
      (all_chars_not_contains ":" name Hncolon), Ht. reflexivity. }
  assert (Hnonempty : forall tail, owner ++ tail <> EmptyString).
  { intros tail. destruct owner; [contradiction | discriminate]. }
  assert (Hrep : forall tail,
             contains_char ":" tail = false ->
             replace HOST_PREFIX EmptyString (owner ++ "/" ++ name ++ tail)
             = owner ++ "/" ++ name ++ tail).
  { intros tail Ht. apply (replace_no_occurrence ":"); [reflexivity|].
    now apply Hcolon. }
  assert (Hrep' : forall tail,
             contains_char ":" tail = false ->
             replace HOST_PREFIX EmptyString (HOST_PREFIX ++ owner ++ "/" ++ name ++ tail)
             = owner ++ "/" ++ name ++ tail).
  { intros tail Ht. unfold HOST_PREFIX at 1 2.
    rewrite replace_at_head. fold HOST_PREFIX. cbn [append]. now apply Hrep. }
  assert (Hnil : forall x : string, x ++ EmptyString = x).
  { induction x as [|c x IH]; [reflexivity|]. cbn. now rewrite IH. }
  split; [|split; [|split]].
  - apply parse_repo_slug_normalised; try assumption.
    + rewrite <- (Hnil name) at 1. now apply Hspace.
    + apply Hnonempty.
    + rewrite <- (Hnil name) at 1. rewrite Hrep by reflexivity.
      rewrite Hnil. exact Hbare.
  - apply parse_repo_slug_normalised; try assumption.
    + rewrite all_chars_app. rewrite <- (Hnil name) at 1.
      rewrite Hspace by reflexivity. reflexivity.
    + discriminate.
    + rewrite <- (Hnil name) at 1. rewrite Hrep' by reflexivity.
      rewrite Hnil. exact Hbare.
  - apply parse_repo_slug_normalised; try assumption.
    + now apply Hspace.
    + apply Hnonempty.
    + rewrite Hrep by reflexivity. exact Htrail.
  - apply parse_repo_slug_normalised; try assumption.
    + rewrite all_chars_app, Hspace by reflexivity. reflexivity.
    + discriminate.
    + rewrite Hrep' by reflexivity. exact Htrail.
Qed.

Lemma parse_repo_slug_forms_witness :
  parse_repo_slug "https://github.com/octo/demo-1.x/" = Some ("octo", "demo-1.x").
Proof.
  apply (parse_repo_slug_forms "octo" "demo-1.x"); reflexivity.
Defined.

(** X5. A text without a slash is never a slug. *)
Theorem parse_repo_slug_needs_slash (s : string) :
  contains_char "/" s = false -> parse_repo_slug s = None.
Proof.
  intros Hs. unfold parse_repo_slug.
  destruct (nonempty (strip s)); [|reflexivity].
  pose proof (contains_char_strip "/" is_space s Hs) as Hstrip. fold (strip s) in Hstrip.
  rewrite (replace_no_occurrence "/" "https://github.com/" EmptyString (strip s)
             eq_refl Hstrip).
  unfold strip_slash. now rewrite (contains_char_strip "/" _ _ Hstrip).
Qed.

Lemma parse_repo_slug_needs_slash_witness : parse_repo_slug " octo " = None.
Proof. apply parse_repo_slug_needs_slash. reflexivity. Defined.

(** ** The aggregate block: order, concatenation, bounds *)

Lemma dicts_of_app (a b : list PyVal) :
  dicts_of (a ++ b) = (dicts_of a ++ dicts_of b)%list.
Proof.
  induction a as [|x a IH]; [reflexivity|].
  destruct x; cbn [app dicts_of]; rewrite IH; reflexivity.
Qed.

Lemma dicts_of_perm (l l' : list PyVal) :
  Permutation l l' -> Permutation (dicts_of l) (dicts_of l').
Proof.
  induction 1 as [|x l l' _ IH|x y l|l l' l'' _ IH1 _ IH2].
  - constructor.
  - destruct x; cbn [dicts_of]; try exact IH. now constructor.
  - destruct x, y; cbn [dicts_of]; try apply Permutation_refl. constructor.
  - now transitivity (dicts_of l').
Qed.

Lemma sum_over_perm (f : pydict -> Z) (a b : list pydict) :
  Permutation a b -> sum_over f a = sum_over f b.
Proof.
  unfold sum_over, Zsum.
  induction 1 as [|x l l' _ IH|x y l|l l' l'' _ IH1 _ IH2]; cbn; lia.
Qed.

Lemma sum_over_app (f : pydict -> Z) (a b : list pydict) :
  sum_over f (a ++ b) = sum_over f a + sum_over f b.
Proof.
  unfold sum_over, Zsum. induction a as [|x a IH]; cbn; lia.
Qed.

Lemma sum_over_bounds (f : pydict -> Z) (hi : Z) (l : list pydict) :
  (forall r, 0 <= f r <= hi) ->
  0 <= sum_over f l <= hi * Z.of_nat (List.length l).
Proof.
  intros Hf. unfold sum_over, Zsum. induction l as [|x l IH].
  - cbn. lia.
  - cbn [map fold_right List.length]. rewrite Nat2Z.inj_succ.
    specialize (Hf x). lia.
Qed.

Lemma totals_spec_perm (a b : list pydict) :
  Permutation a b -> totals_spec a = totals_spec b.
Proof.
  intros H. unfold totals_spec.
  rewrite (Permutation_length H).
  now rewrite !(sum_over_perm _ a b H).
Qed.

Lemma totals_spec_app (a b : list pydict) :
  totals_spec (a ++ b) = totals_merge (totals_spec a) (totals_spec b).
Proof.
  unfold totals_spec, totals_merge, mk_totals. cbn [combine map fst snd].
  rewrite length_app, Nat2Z.inj_add, !sum_over_app. reflexivity.
Qed.

(** X6. The totals do not depend on the order of the repo list, and the
    totals of a concatenation are the totals of its two parts added counter
    by counter. *)
Theorem aggregate_order_and_concatenation (repos repos' : list PyVal) :
  (Permutation repos repos' -> aggregate_loop repos = aggregate_loop repos')
  /\ aggregate_loop (repos ++ repos')
     = totals_merge (aggregate_loop repos) (aggregate_loop repos')
  /\ (forall payload,
        Permutation repos repos' ->
        dict_get (dict_set payload "repos" (PList repos)) "repos" = PList repos
        /\ exists out out',
             aggregate_execute (PDict (dict_set payload "repos" (PList repos)))
             = Ok (PDict out, PDict [("ok", PBool true)])
             /\ aggregate_execute (PDict (dict_set payload "repos" (PList repos')))
                = Ok (PDict out', PDict [("ok", PBool true)])
             /\ dict_get out "totals" = dict_get out' "totals").
Proof.
  split; [|split].
  - intros H. rewrite !aggregate_loop_spec. now apply totals_spec_perm, dicts_of_perm.
  - rewrite !aggregate_loop_spec, dicts_of_app. apply totals_spec_app.
  - intros payload H. split; [apply dict_get_set_same|].
    assert (Hit : forall l,
               py_iter (py_or (dict_get (dict_or_empty
                 (PDict (dict_set payload "repos" (PList l)))) "repos") (PList []))
               = Ok l).
    { intros l. cbn [dict_or_empty]. rewrite dict_get_set_same.
      destruct l; reflexivity. }
    do 2 eexists.
    split; [apply (aggregate_execute_items _ _ (Hit repos))|].
    split; [apply (aggregate_execute_items _ _ (Hit repos'))|].
    cbn [dict_or_empty]. rewrite !dict_get_set_same.
    now rewrite (totals_spec_perm _ _ (dicts_of_perm _ _ H)).
Qed.

Lemma aggregate_order_and_concatenation_witness :
  aggregate_loop [sample_record 3 5; PStr "junk"; sample_record 4 6]
  = aggregate_loop [sample_record 4 6; sample_record 3 5; PStr "junk"].
Proof.
  apply (proj1 (aggregate_order_and_concatenation _ _)).
  apply Permutation_sym, (Permutation_cons_app [_; _] []). reflexivity.
Defined.

(** X7. Whenever the aggregate block returns, [totals.repos] is
    non-negative and each of the ten other totals lies between 0 and
    2000000000 times [totals.repos]. *)
Theorem aggregate_totals_bounded (payload out meta : PyVal) :
  aggregate_execute payload = Ok (out, meta) ->
  exists n s f w o d vt vu ct cu c,
    dict_get (dict_or_empty out) "totals"
    = totals_value (mk_totals n s f w o d vt vu ct cu c)
    /\ 0 <= n
    /\ Forall (fun x => 0 <= x <= CLAMP_HI * n) [s; f; w; o; d; vt; vu; ct; cu; c].
Proof.
  unfold aggregate_execute at 1.
  destruct (py_iter (py_or (dict_get (dict_or_empty payload) "repos") (PList [])))
    as [items|e] eqn:Hit; cbn [bind]; [|discriminate].
  intros H. injection H as <- _. rewrite aggregate_loop_spec.
  cbn [dict_or_empty]. rewrite dict_get_set_same.
  unfold totals_spec. do 11 eexists. split; [reflexivity|]. split; [lia|].
  repeat (apply Forall_cons;
          [apply sum_over_bounds; intros r; unfold field, traffic_field;
           apply clamp_range|]).
  apply Forall_nil.
Qed.

Lemma aggregate_totals_bounded_witness :
  exists n s,
    dict_get (dict_or_empty
      (PDict [ ("repos", PList [sample_record 3 5]);
               ("totals", totals_value (mk_totals 1 3 0 0 0 0 5 0 0 0 0)) ]))
      "totals" = totals_value (mk_totals n s 0 0 0 0 5 0 0 0 0)
    /\ 0 <= s <= CLAMP_HI * n.
Proof.
  destruct (aggregate_totals_bounded (PDict [("repos", PList [sample_record 3 5])])
              _ _ eq_refl)
    as (n & s & f & w & o & d & vt & vu & ct & cu & c & Ht & _ & Hall).
  cbn in Ht. injection Ht as <- <- <- <- <- <- <- <- <- <- <-.
  inversion Hall as [|? ? Hs _]. exists 1, 3. split; [reflexivity | exact Hs].
Defined.

(** ** [Registry] *)

(** X8. Registering a class under a name makes [get] return it and [has]
    hold for that name, leaves every other name as it was, and replaces
    what was registered under the name before without adding an entry;
    [get] finds a class exactly for the names [has] holds for. *)
Theorem registry_register_get {C : Type} (reg : Registry.t C) (name : string)
  (cls : C) :
  Registry.get (Registry.register reg name cls) name = Some cls
  /\ Registry.has (Registry.register reg name cls) name = true
  /\ (forall other, other <> name ->
        Registry.get (Registry.register reg name cls) other = Registry.get reg other
        /\ Registry.has (Registry.register reg name cls) other = Registry.has reg other)
  /\ (forall cls',
        Registry.register (Registry.register reg name cls) name cls'
        = Registry.register reg name cls')
  /\ (Registry.has reg name = true ->
        List.length (Registry.register reg name cls) = List.length reg)
  /\ (forall n, Registry.has reg n = true <-> exists c, Registry.get reg n = Some c).
Proof.
  repeat split.
  - induction reg as [|[k v] reg IH]; cbn.
    + now rewrite String.eqb_refl.
    + destruct (k =? name)%string eqn:E; cbn; [now rewrite String.eqb_refl|].
      now rewrite E.
  - induction reg as [|[k v] reg IH]; cbn.
    + now rewrite String.eqb_refl.
    + destruct (k =? name)%string eqn:E; cbn; [now rewrite String.eqb_refl|].
      now rewrite E.
  - induction reg as [|[k v] reg IH]; cbn.
    + destruct (String.eqb_spec name other); [congruence | reflexivity].
    + destruct (String.eqb_spec k name) as [->|Hk]; cbn.
      * destruct (String.eqb_spec name other); [congruence | reflexivity].
      * destruct (k =? other)%string; [reflexivity | exact IH].
  - induction reg as [|[k v] reg IH]; cbn.
    + destruct (String.eqb_spec name other); [congruence | reflexivity].
    + destruct (String.eqb_spec k name) as [->|Hk]; cbn.
      * destruct (String.eqb_spec name other); [congruence | reflexivity].
      * now rewrite IH.
  - intros cls'. induction reg as [|[k v] reg IH]; cbn.
    + now rewrite String.eqb_refl.
    + destruct (k =? name)%string eqn:E; cbn; [now rewrite String.eqb_refl|].
      now rewrite E, IH.
  - induction reg as [|[k v] reg IH]; cbn; [discriminate|].
    destruct (k =? name)%string eqn:E; cbn; [reflexivity|].
    intros H. now rewrite IH.
  - induction reg as [|[k v] reg IH]; cbn; [discriminate|].
    destruct (k =? n)%string; cbn; [eauto | exact IH].
  - induction reg as [|[k v] reg IH]; cbn.
    + intros [c H]. discriminate H.
    + destruct (k =? n)%string; cbn; [reflexivity | exact IH].
Qed.

Lemma registry_register_get_witness :
  List.length (Registry.register BLOCKS "github_fetch" ConfigLoadBlock) = 4%nat.
Proof.
  rewrite (proj1 (proj2 (proj2 (proj2 (proj2
             (registry_register_get BLOCKS "github_fetch" ConfigLoadBlock))))));
    reflexivity.
Defined.

(** ** [Pipeline.run] *)

Lemma pipeline_loop_app {E : Type}
  (runner : string -> PyVal -> pydict -> attempt E (PyVal * PyVal))
  (b1 b2 : list BlockInstance) (cur : PyVal) (steps : list PyVal) :
  Pipeline.loop runner (b1 ++ b2) cur steps
  = match Pipeline.loop runner b1 cur steps with
    | Raises e => Raises e
    | Returns (mid, steps') => Pipeline.loop runner b2 mid steps'
    end.
Proof.
  revert cur steps. induction b1 as [|bi b1 IH]; intros cur steps; [reflexivity|].
  cbn [app Pipeline.loop].
  destruct (runner (bi_name bi) cur (bi_params bi)) as [[out meta]|e]; [|reflexivity].
  apply IH.
Qed.

(** The steps recorded before the loop is entered stay in front. *)
Lemma pipeline_loop_steps {E : Type}
  (runner : string -> PyVal -> pydict -> attempt E (PyVal * PyVal))
  (blocks : list BlockInstance) (cur : PyVal) (steps : list PyVal) :
  Pipeline.loop runner blocks cur steps
  = match Pipeline.loop runner blocks cur [] with
    | Raises e => Raises e
    | Returns (out, more) => Returns (out, (steps ++ more)%list)
    end.
Proof.
  revert cur steps. induction blocks as [|bi blocks IH]; intros cur steps.
  - cbn. now rewrite app_nil_r.
  - cbn [Pipeline.loop].
    destruct (runner (bi_name bi) cur (bi_params bi)) as [[out meta]|e]; [|reflexivity].
    rewrite (IH out (steps ++ _)%list), (IH out ([] ++ _)%list).
    destruct (Pipeline.loop runner blocks out []) as [[out' more]|e]; [|reflexivity].
    now rewrite <- app_assoc.
Qed.

Lemma pipeline_loop_names {E : Type}
  (runner : string -> PyVal -> pydict -> attempt E (PyVal * PyVal))
  (blocks : list BlockInstance) (cur out : PyVal) (steps : list PyVal) :
  Pipeline.loop runner blocks cur [] = Returns (out, steps) ->
  map (fun step => dict_get (dict_or_empty step) "block") steps
  = map (fun bi => PStr (bi_name bi)) blocks.
Proof.
  revert cur out steps. induction blocks as [|bi blocks IH]; intros cur out steps.
  - cbn. intros H. injection H as _ <-. reflexivity.
  - cbn [Pipeline.loop].
    destruct (runner (bi_name bi) cur (bi_params bi)) as [[mid meta]|e]; [|discriminate].
    rewrite pipeline_loop_steps.
    destruct (Pipeline.loop runner blocks mid []) as [[out' more]|e] eqn:Hl;
      [|discriminate].
    intros H. injection H as _ <-. cbn. f_equal. exact (IH _ _ _ Hl).
Qed.

(** X9. [Pipeline.run] composes: running [b1 ++ b2] is running [b1] and
    then [b2] on its output, the recorded steps in a row, and an exception
    of a block ends the run with that exception.  A run that returns has
    recorded one step per block, under the blocks' names in order; the
    empty pipeline returns its payload. *)
Theorem pipeline_run_composes {E : Type}
  (runner : string -> PyVal -> pydict -> attempt E (PyVal * PyVal))
  (b1 b2 : list BlockInstance) (payload : PyVal) :
  Pipeline.run runner (b1 ++ b2) payload
  = match Pipeline.run runner b1 payload with
    | Raises e => Raises e
    | Returns (mid, meta1) =>
        match Pipeline.run runner b2 mid with
        | Raises e => Raises e
        | Returns (out, meta2) =>
            Returns (out, PDict [("steps", PList (steps_of meta1 ++ steps_of meta2))])
        end
    end
  /\ (forall out meta,
        Pipeline.run runner b1 payload = Returns (out, meta) ->
        map (fun step => dict_get (dict_or_empty step) "block") (steps_of meta)
        = map (fun bi => PStr (bi_name bi)) b1
        /\ List.length (steps_of meta) = List.length b1)
  /\ Pipeline.run runner [] payload = Returns (payload, PDict [("steps", PList [])]).
Proof.
  split; [|split].
  - unfold Pipeline.run. rewrite pipeline_loop_app.
    destruct (Pipeline.loop runner b1 payload []) as [[mid steps1]|e]; [|reflexivity].
    rewrite pipeline_loop_steps.
    destruct (Pipeline.loop runner b2 mid []) as [[out steps2]|e]; reflexivity.
  - intros out meta. unfold Pipeline.run.
    destruct (Pipeline.loop runner b1 payload []) as [[out' steps]|e] eqn:Hl;
      [|discriminate].
    intros H. injection H as <- <-. cbn [steps_of dict_or_empty dict_get list_items].
    change (("steps" =? "steps")%string) with true. cbn [list_items].
    pose proof (pipeline_loop_names runner b1 payload out' steps Hl) as Hn.
    split; [exact Hn|].
    apply (f_equal (@List.length PyVal)) in Hn. now rewrite !length_map in Hn.
  - reflexivity.
Qed.

(** ** [run_block] *)

Section RunBlockProperties.

Variable str_other : PyVal -> string.
Variable api : Api.
Variable env_token : option string.
Variable now : spec_float.
Variable config_load_execute : PyVal -> pydict -> result (PyVal * PyVal).
Variable config_save_execute : PyVal -> pydict -> result (PyVal * PyVal).

(** X10. [run_block] runs the fetch block under the name [github_fetch]
    and the aggregate block under [github_aggregate], a missing [params]
    standing for the empty dict, and raises [KeyError] for a name that is
    none of the four registered ones.  The two-step pipeline run through it
    returns what fetch-then-aggregate returns, with a step recorded for
    each block, and raises what it raises. *)
Theorem run_block_dispatch (payload : PyVal) :
  (forall params,
      run_block str_other api env_token now config_load_execute config_save_execute
        "github_fetch" payload params
      = as_attempt (fetch_execute str_other api env_token now payload
                      (match params with Some p => p | None => [] end)))
  /\ (forall params,
      run_block str_other api env_token now config_load_execute config_save_execute
        "github_aggregate" payload params
      = as_attempt (aggregate_execute payload))
  /\ (forall name params,
      ~ In name ["config_load"; "config_save"; "github_fetch"; "github_aggregate"] ->
      run_block str_other api env_token now config_load_execute config_save_execute
        name payload params
      = Raises (KeyError name))
  /\ match fetch_then_aggregate str_other api env_token now payload with
     | Ok out =>
         exists meta,
           Pipeline.run
             (fun name cur params =>
                run_block str_other api env_token now config_load_execute
                  config_save_execute name cur (Some params))
             analytics_pipeline payload
           = Returns (out, meta)
           /\ map (fun step => dict_get (dict_or_empty step) "block") (steps_of meta)
              = [PStr "github_fetch"; PStr "github_aggregate"]
     | Raised e =>
         Pipeline.run
           (fun name cur params =>
              run_block str_other api env_token now config_load_execute
                config_save_execute name cur (Some params))
           analytics_pipeline payload
         = Raises (BlockRaised e)
     end.
Proof.
  split; [|split; [|split]].
  - intros params. reflexivity.
  - intros params. reflexivity.
  - intros name params Hnot. unfold run_block.
    assert (Hget : Registry.get BLOCKS name = None).
    { change BLOCKS
        with [ ("config_load", ConfigLoadBlock); ("config_save", ConfigSaveBlock);
               ("github_fetch", GitHubFetchBlock);
               ("github_aggregate", GitHubAggregateBlock) ].
      cbn [Registry.get]. cbn [In] in Hnot.
      repeat match goal with
             | |- context [(?k =? name)%string] =>
                 destruct (String.eqb_spec k name); [exfalso; tauto|]
             end.
      reflexivity. }
    now rewrite Hget.
  - unfold fetch_then_aggregate, Pipeline.run, analytics_pipeline.
    cbn [Pipeline.loop bi_name bi_params].
    change (run_block str_other api env_token now config_load_execute
              config_save_execute "github_fetch" payload (Some []))
      with (as_attempt (fetch_execute str_other api env_token now payload [])).
    destruct (fetch_execute str_other api env_token now payload [])
      as [[mid meta1]|e]; cbn [bind as_attempt fst]; [|reflexivity].
    change (run_block str_other api env_token now config_load_execute
              config_save_execute "github_aggregate" mid (Some []))
      with (as_attempt (aggregate_execute mid)).
    destruct (aggregate_execute mid) as [[out meta2]|e];
      cbn [bind as_attempt fst]; [|reflexivity].
    eexists. split; reflexivity.
Qed.

End RunBlockProperties.

(** ** The releases gathered by the paging loop *)

Lemma stopping_page_no_dicts (chunk : PyVal) :
  negb (is_list chunk) || negb (truthy chunk) = true ->
  dicts_of (list_items chunk) = [].
Proof. destruct chunk as [| | | | |l|]; try reflexivity. now destruct l. Qed.

Lemma releases_loop_content (api : Api) (repo_url : string) (page : Z)
  (releases : list pydict) :
  match snd (releases_loop api repo_url page releases) with
  | Ok out =>
      out = (releases
             ++ flat_map (page_dicts api)
                  (fst (releases_loop api repo_url page releases)))%list
  | Raised e =>
      exists earlier last,
        fst (releases_loop api repo_url page releases) = (earlier ++ [last])%list
        /\ get_json api last = Raised e
  end.
Proof.
  funelim (releases_loop api repo_url page releases); clear Heqcall.
  - cbn [snd fst]. exists [], (releases_url repo_url page). auto.
  - cbn [snd fst flat_map]. unfold page_dicts. rewrite Heq0.
    rewrite (stopping_page_no_dicts chunk Heq). now rewrite !app_nil_r.
  - cbn [snd fst flat_map]. unfold page_dicts. rewrite Heq1.
    now rewrite app_nil_r.
  - cbn [snd fst flat_map]. unfold page_dicts. rewrite Heq2.
    now rewrite app_nil_r.
  - destruct (releases_loop api repo_url (page + 1)
                (releases ++ dicts_of (list_items chunk))) as [urls r].
    cbn [snd fst] in *. destruct r as [out|e].
    + cbn [flat_map]. unfold page_dicts at 1. rewrite Heq2, H.
      now rewrite app_assoc.
    + destruct H as (earlier & last & -> & Hlast).
      exists (releases_url repo_url page :: earlier), last. auto.
Qed.

(** X11. The releases the paging loop returns are the dict entries of the
    pages it requested, page after page in the order of the pages; when a
    page request fails the loop raises that request's exception, and the
    failed request is the last one it made. *)
Theorem releases_gathered_in_page_order (api : Api) (repo_url : string) :
  match snd (releases_loop api repo_url 1 []) with
  | Ok releases =>
      releases = flat_map (page_dicts api) (fst (releases_loop api repo_url 1 []))
  | Raised e =>
      exists earlier last,
        fst (releases_loop api repo_url 1 []) = (earlier ++ [last])%list
        /\ get_json api last = Raised e
  end.
Proof. exact (releases_loop_content api repo_url 1 []). Qed.

(** ** The fetch block: commits, traffic, records *)

Lemma strip_by_head_nonempty (p : ascii -> bool) (c : ascii) (s : string) :
  p c = false -> strip_by p (String c s) <> EmptyString.
Proof.
  intros Hc. unfold strip_by. cbn [lstrip_by]. rewrite Hc. cbn [rstrip_by].
  destruct (rstrip_by p s); [rewrite Hc|]; discriminate.
Qed.

Lemma traffic_total_ge_reported (d : pydict) (series_key : string) :
  clamp (dict_get d "count") <= _traffic_total_from_series (PDict d) series_key.
Proof.
  unfold _traffic_total_from_series.
  destruct (dict_get d series_key) as [| | | | |l|]; try lia.
  destruct l; [lia | apply Z.le_max_l].
Qed.

Section FurtherFetchProperties.

Variable str_other : PyVal -> string.

(** X12. The commits warning is empty exactly when the commits request
    succeeded.  On success the total is the last page of the [Link] header
    when the helper finds one, else the number of commits in the page; a
    response that is not a list counts as 0 commits without a warning; on
    failure the total is 0. *)
Theorem commits_warning_iff_failure (api : Api) (repo_url : string) :
  (snd (fetch_commits str_other api repo_url) = EmptyString
   <-> exists r, get_json_with_headers api (repo_url ++ "/commits?per_page=1") = Ok r)
  /\ (forall commits headers,
        get_json_with_headers api (repo_url ++ "/commits?per_page=1")
        = Ok (PList commits, headers) ->
        fst (fetch_commits str_other api repo_url)
        = match _parse_link_last_page (link_header_of headers) with
          | Some last_page => last_page
          | None => Z.of_nat (List.length commits)
          end)
  /\ (forall v headers,
        get_json_with_headers api (repo_url ++ "/commits?per_page=1") = Ok (v, headers) ->
        is_list v = false ->
        fetch_commits str_other api repo_url = (0, EmptyString))
  /\ (forall e,
        get_json_with_headers api (repo_url ++ "/commits?per_page=1") = Raised e ->
        fst (fetch_commits str_other api repo_url) = 0).
Proof.
  unfold fetch_commits.
  destruct (get_json_with_headers api (repo_url ++ "/commits?per_page=1"))
    as [[v headers]|e] eqn:Hreq.
  - split; [|split; [|split]].
    + split; [eauto|]. intros _.
      destruct v; try reflexivity.
      now destruct (_parse_link_last_page (link_header_of headers)).
    + intros commits headers' H. injection H as -> ->.
      now destruct (_parse_link_last_page (link_header_of headers')).
    + intros v' headers' H Hl. injection H as -> ->.
      destruct v'; try reflexivity; discriminate.
    + discriminate.
  - split; [|split; [|split]]; try discriminate.
    + cbn [snd]. split.
      * intros Hempty. exfalso.
        destruct (client_error_text _ _ _ Hreq) as [rest Hrest].
        rewrite Hrest in Hempty.
        exact (_safe_str_nonempty str_other _ _ _ Hempty).
      * intros [r Hr]. discriminate Hr.
    + reflexivity.
Qed.

(** X13. Without a token the block has no traffic and no traffic warning.
    With one, the traffic mapping holds, under their keys and in the order
    views, clones, referrers, paths, the answers of exactly the endpoints
    that answered, whatever became of the others; and the traffic warning
    is empty exactly when all four answered. *)
Theorem traffic_endpoints_independent (api : Api) (token repo_url : string) :
  (nonempty token = false ->
   fetch_traffic str_other api token repo_url = ([], EmptyString))
  /\ (nonempty token = true ->
      fst (fetch_traffic str_other api token repo_url) = traffic_entries api repo_url
      /\ (forall key url,
            In (key, url) (traffic_endpoints repo_url) ->
            dict_get (fst (fetch_traffic str_other api token repo_url)) key
            = match get_json api url with Ok v => v | Raised _ => PNone end)
      /\ (snd (fetch_traffic str_other api token repo_url) = EmptyString
          <-> forall key url,
                In (key, url) (traffic_endpoints repo_url) ->
                exists v, get_json api url = Ok v)).
Proof.
  unfold fetch_traffic. split; [intros ->; reflexivity|]. intros ->.
  unfold traffic_entries, traffic_endpoints. cbn [traffic_loop flat_map fst snd].
  destruct (get_json api (repo_url ++ "/traffic/views?per=day")) as [v1|e1] eqn:H1;
  destruct (get_json api (repo_url ++ "/traffic/clones?per=day")) as [v2|e2] eqn:H2;
  destruct (get_json api (repo_url ++ "/traffic/popular/referrers")) as [v3|e3] eqn:H3;
  destruct (get_json api (repo_url ++ "/traffic/popular/paths")) as [v4|e4] eqn:H4;
  cbn [traffic_loop dict_set app fst snd String.eqb Ascii.eqb Bool.eqb];
  (split; [reflexivity|]); (split;
    [ intros key url [H|[H|[H|[H|[]]]]]; injection H as <- <-;
      rewrite ?H1, ?H2, ?H3, ?H4; reflexivity |]).
  all: split;
    [ intros Hs;
      try (exfalso; cbn [join append] in Hs;
           refine (strip_by_head_nonempty is_space _ _ _ Hs); reflexivity);
      intros key url [H|[H|[H|[H|[]]]]]; injection H as <- <-; eauto
    | intros Hall; try reflexivity; exfalso ].
  all: try (destruct (Hall _ _ (or_introl eq_refl)) as [v Hv]; congruence).
  all: try (destruct (Hall _ _ (or_intror (or_introl eq_refl))) as [v Hv]; congruence).
  all: try (destruct (Hall _ _ (or_intror (or_intror (or_introl eq_refl)))) as [v Hv];
            congruence).
  all: try (destruct (Hall _ _ (or_intror (or_intror (or_intror (or_introl eq_refl)))))
              as [v Hv]; congruence).
Qed.

Lemma process_repo_inv (api : Api) (token : string) (r record : PyVal) :
  process_repo str_other api token r = Fetched record ->
  exists owner name rd releases summary,
    parse_repo_slug (py_str str_other r) = Some (owner, name)
    /\ summarize_releases str_other releases 0 [] = Ok summary
    /\ repo_record str_other (owner ++ "/" ++ name) (PDict rd)
         (fetch_commits str_other api (api_repo_url owner name))
         (fetch_languages api (api_repo_url owner name))
         releases summary
         (fetch_traffic str_other api token (api_repo_url owner name))
       = Ok record.
Proof.
  unfold process_repo.
  destruct (parse_repo_slug (py_str str_other r)) as [[owner name]|]; [|discriminate].
  destruct (fetch_repo str_other api token owner name) as [rec|e] eqn:Hf;
    [|discriminate].
  intros H. injection H as <-. apply fetch_repo_inv in Hf.
  destruct Hf as (rd & releases & summary & _ & _ & Hsum & Hrec).
  exists owner, name, rd, releases, summary. auto.
Qed.

Lemma str_field_of_safe_str (d : pydict) (k : string) (v : PyVal) (n : nat) :
  dict_get d k = PStr (_safe_str str_other v n) ->
  str_field_within (PDict d) k n.
Proof.
  intros H. exists (_safe_str str_other v n). split; [exact H|].
  apply _safe_str_bounds.
Qed.

Lemma release_entry_has_shape (rel : pydict) (assets : PyVal) (rel_sum : Z) :
  release_entry_shape (release_entry str_other rel assets rel_sum).
Proof.
  unfold release_entry_shape, release_entry. split; [reflexivity|].
  repeat split; eapply str_field_of_safe_str; reflexivity.
Qed.

Lemma summarize_releases_shape (releases : list pydict) (total : Z)
  (per_release : list PyVal) (total' : Z) (per_release' : list PyVal) :
  summarize_releases str_other releases total per_release
    = Ok (total', per_release') ->
  Forall release_entry_shape per_release ->
  Forall release_entry_shape per_release'
  /\ List.length per_release'
     = (List.length per_release + List.length releases)%nat.
Proof.
  revert total per_release.
  induction releases as [|rel rest IH]; intros total per_release H Hok.
  - cbn in H. injection H as <- <-. split; [exact Hok | cbn; lia].
  - cbn [summarize_releases] in H.
    destruct (py_iter (py_or (dict_get rel "assets") (PList [])))
      as [items|e]; [|discriminate].
    cbn [bind] in H. apply IH in H.
    + destruct H as [Hall Hlen]. split; [exact Hall|].
      rewrite Hlen, length_app. cbn. lia.
    + apply Forall_app. split; [exact Hok|].
      constructor; [apply release_entry_has_shape | constructor].
Qed.

Lemma fetch_commits_warning_bounds (api : Api) (repo_url : string) :
  (String.length (snd (fetch_commits str_other api repo_url)) <= 1200)%nat
  /\ single_line (snd (fetch_commits str_other api repo_url)) = true.
Proof.
  unfold fetch_commits.
  destruct (get_json_with_headers api (repo_url ++ "/commits?per_page=1"))
    as [[v headers]|e].
  - destruct v; try (split; [cbn; lia | reflexivity]).
    destruct (_parse_link_last_page (link_header_of headers));
      (split; [cbn; lia | reflexivity]).
  - cbn [snd]. apply _safe_str_bounds.
Qed.

(** X14. Every record the block appends is a dict with the same
    twenty-two keys in the same order; its [repo] is the parsed
    [owner/name]; [languages] and [traffic] are dicts; [releases] is a list
    with one entry per release gathered, [releases_count] is its length,
    and each entry has the five release keys, with [tag], [name] and
    [published_at] on one line and at most 128, 256 and 64 characters. *)
Theorem record_schema (api : Api) (token : string) (r record : PyVal) :
  process_repo str_other api token r = Fetched record ->
  exists owner name languages traffic per_release,
    parse_repo_slug (py_str str_other r) = Some (owner, name)
    /\ is_dict record = true
    /\ map fst (dict_or_empty record) = RECORD_KEYS
    /\ dict_get (dict_or_empty record) "repo" = PStr (owner ++ "/" ++ name)
    /\ dict_get (dict_or_empty record) "languages" = PDict languages
    /\ dict_get (dict_or_empty record) "traffic" = PDict traffic
    /\ dict_get (dict_or_empty record) "releases" = PList per_release
    /\ dict_get (dict_or_empty record) "releases_count"
       = PInt (Z.of_nat (List.length per_release))
    /\ Forall release_entry_shape per_release.
Proof.
  intros H. apply process_repo_inv in H.
  destruct H as (owner & name & rd & releases & [total per_release] & Hp & Hsum & Hrec).
  destruct (summarize_releases_shape _ _ _ _ _ Hsum (Forall_nil _)) as [Hshape Hlen].
  destruct (fetch_commits str_other api (api_repo_url owner name)) as [ct ce].
  destruct (fetch_traffic str_other api token (api_repo_url owner name)) as [tr te].
  unfold repo_record, safe_field, clamp_field in Hrec. cbn [py_get bind] in Hrec.
  injection Hrec as <-.
  exists owner, name, (dict_or_empty (fetch_languages api (api_repo_url owner name))),
    tr, per_release.
  cbn [dict_or_empty]. repeat split; try reflexivity; try assumption.
  cbn [List.length] in Hlen. cbn [dict_get String.eqb Ascii.eqb Bool.eqb].
  now rewrite Hlen.
Qed.


(** X15. In every record the block appends, [html_url], [default_branch],
    [pushed_at], [updated_at], [created_at], [language] and [commits_error]
    are strs on one line, of at most 256, 128, 64, 64, 64, 64 and 1200
    characters. *)
Theorem record_strings_bounded (api : Api) (token : string) (r record : PyVal) :
  process_repo str_other api token r = Fetched record ->
  str_field_within record "html_url" 256
  /\ str_field_within record "default_branch" 128
  /\ str_field_within record "pushed_at" 64
  /\ str_field_within record "updated_at" 64
  /\ str_field_within record "created_at" 64
  /\ str_field_within record "language" 64
  /\ str_field_within record "commits_error" 1200.
Proof.
  intros H. apply process_repo_inv in H.
  destruct H as (owner & name & rd & releases & [total per_release] & Hp & Hsum & Hrec).
  pose proof (fetch_commits_warning_bounds api (api_repo_url owner name)) as Hce.
  destruct (fetch_commits str_other api (api_repo_url owner name)) as [ct ce].
  destruct (fetch_traffic str_other api token (api_repo_url owner name)) as [tr te].
  unfold repo_record, safe_field, clamp_field in Hrec. cbn [py_get bind] in Hrec.
  injection Hrec as <-.
  repeat split; try (eapply str_field_of_safe_str; reflexivity).
  exists ce. split; [reflexivity | exact Hce].
Qed.

Lemma fetched_record_is_dict (api : Api) (token : string) (r record : PyVal) :
  process_repo str_other api token r = Fetched record -> is_dict record = true.
Proof.
  intros H. apply process_repo_inv in H.
  destruct H as (owner & name & rd & releases & summary & _ & _ & Hrec).
  destruct (repo_record_dict str_other (owner ++ "/" ++ name) rd
              (fetch_commits str_other api (api_repo_url owner name))
              (fetch_languages api (api_repo_url owner name)) releases summary
              (fetch_traffic str_other api token (api_repo_url owner name)))
    as [fields Hf].
  rewrite Hf in Hrec. now injection Hrec as <-.
Qed.

Lemma records_of_in (outcome : PyVal -> Outcome) (items : list PyVal)
  (record : PyVal) :
  In record (records_of outcome items) ->
  exists r, In r items /\ outcome r = Fetched record.
Proof.
  unfold records_of. rewrite in_flat_map. intros (r & Hr & Hin).
  exists r. split; [exact Hr|].
  destruct (outcome r); cbn in Hin; [|contradiction].
  destruct Hin as [->|[]]. reflexivity.
Qed.

(** X16. When the fetch block returns, its output has exactly the keys
    [generated_at], [repos] and [errors], [generated_at] being the reading
    of the clock; every entry of [repos] is a dict; and the metadata's
    [count] is the number of entries of [repos]. *)
Theorem fetch_output_and_count (api : Api) (env_token : option string)
  (now : spec_float) (payload : PyVal) (params : pydict) (out meta : PyVal) :
  fetch_execute str_other api env_token now payload params = Ok (out, meta) ->
  exists token repos errors,
    out = PDict [ ("generated_at", PFloat now); ("repos", PList repos);
                  ("errors", PList errors) ]
    /\ meta = PDict [ ("token_provided", PBool (nonempty token));
                      ("count", PInt (Z.of_nat (List.length repos))) ]
    /\ Forall (fun record => is_dict record = true) repos.
Proof.
  intros H.
  destruct (resolve_token str_other (dict_or_empty payload) params env_token)
    as [token|e] eqn:Ht;
    [|unfold fetch_execute in H; rewrite Ht in H; discriminate].
  destruct (py_iter (py_or (dict_get (dict_or_empty payload) "repos") (PList [])))
    as [items|e] eqn:Hi;
    [|unfold fetch_execute in H; rewrite Ht, Hi in H; discriminate].
  rewrite (fetch_execute_items str_other api env_token now payload params token items
             Ht Hi) in H.
  injection H as <- <-.
  exists token. do 2 eexists. split; [reflexivity|]. split; [reflexivity|].
  apply Forall_forall. intros record Hin.
  apply records_of_in in Hin. destruct Hin as (r & _ & Hr).
  exact (fetched_record_is_dict api token r record Hr).
Qed.

(** X17. Every entry the block appends to [errors] is a dict
    [{repo, error}] whose [error] text is on one line and at most 4000
    characters long; for a slug that does not parse, [repo] is the raw text
    and [error] is [invalid_repo_slug], otherwise [repo] is the parsed
    [owner/name]. *)
Theorem error_entries_bounded (api : Api) (token : string) (r error : PyVal) :
  process_repo str_other api token r = Failed error ->
  exists repo text,
    error = error_record repo text
    /\ (String.length text <= 4000)%nat /\ single_line text = true
    /\ match parse_repo_slug (py_str str_other r) with
       | None => repo = py_str str_other r /\ text = "invalid_repo_slug"
       | Some (owner, name) => repo = owner ++ "/" ++ name
       end.
Proof.
  unfold process_repo.
  destruct (parse_repo_slug (py_str str_other r)) as [[owner name]|].
  - destruct (fetch_repo str_other api token owner name) as [rec|e]; [discriminate|].
    intros H. injection H as <-. do 2 eexists. split; [reflexivity|].
    destruct (_safe_str_bounds str_other (PStr (exc_str e)) 4000) as [Hl Hs].
    auto.
  - intros H. injection H as <-. do 2 eexists. split; [reflexivity|].
    split; [cbn; lia|]. split; [reflexivity|]. auto.
Qed.

(** X18. A record fetched without a token has an empty [traffic] dict, an
    empty [traffic_error] and zero [views_14d_total] and
    [clones_14d_total]. *)
Theorem record_without_token (api : Api) (token : string) (r record : PyVal) :
  nonempty token = false ->
  process_repo str_other api token r = Fetched record ->
  dict_get (dict_or_empty record) "traffic" = PDict []
  /\ dict_get (dict_or_empty record) "traffic_error" = PStr EmptyString
  /\ dict_get (dict_or_empty record) "views_14d_total" = PInt 0
  /\ dict_get (dict_or_empty record) "clones_14d_total" = PInt 0.
Proof.
  intros Htok H. apply process_repo_inv in H.
  destruct H as (owner & name & rd & releases & [total per_release] & _ & _ & Hrec).
  unfold fetch_traffic in Hrec. rewrite Htok in Hrec.
  destruct (fetch_commits str_other api (api_repo_url owner name)) as [ct ce].
  unfold repo_record, safe_field, clamp_field in Hrec. cbn [py_get bind] in Hrec.
  injection Hrec as <-. repeat split.
Qed.

Lemma summarize_releases_total_nonneg (releases : list pydict) (total : Z)
  (per_release : list PyVal) (summary : Z * list PyVal) :
  summarize_releases str_other releases total per_release = Ok summary ->
  total <= fst summary.
Proof.
  revert total per_release.
  induction releases as [|rel rest IH]; intros total per_release H.
  - cbn in H. injection H as <-. cbn. lia.
  - cbn [summarize_releases] in H.
    destruct (py_iter (py_or (dict_get rel "assets") (PList [])))
      as [items|e]; [|discriminate].
    cbn [bind] in H. apply IH in H.
    pose proof (assets_sum_bounds items 0). lia.
Qed.

Lemma clamp_nonneg_int (z : Z) : 0 <= z -> clamp (PInt z) = Z.min z CLAMP_HI.
Proof.
  intros H. unfold clamp, _clamp_int. cbn [py_int].
  destruct (Z.ltb_spec z 0); [lia|].
  destruct (Z.ltb_spec CLAMP_HI z); lia.
Qed.

Lemma clamp_clamp (v : PyVal) : clamp (PInt (clamp v)) = clamp v.
Proof. apply _clamp_int_fixed, clamp_range. Qed.

Lemma traffic_count_le_total (traffic : pydict) (part : string) :
  clamp (dict_get (dict_or_empty (dict_get traffic part)) "count")
  <= match traffic with
     | [] => 0
     | _ => _traffic_total_from_series (dict_get traffic part) part
     end.
Proof.
  destruct traffic as [|kv traffic]; [cbn; reflexivity|].
  destruct (dict_get (kv :: traffic) part) as [| | | | | |d] eqn:E;
    try (cbn [dict_or_empty dict_get]; apply traffic_total_nonneg).
  cbn [dict_or_empty]. apply traffic_total_ge_reported.
Qed.

(** X19. What the aggregate block reads from a record the fetch block
    appended: the clamped [stars], [forks], [watchers] and [open_issues]
    are the stored values unchanged; the clamped [commits_total] and
    [release_asset_downloads_total] are the stored values capped at
    2000000000; and the clamped [count] of [traffic.views] and of
    [traffic.clones] is at most the record's [views_14d_total] and
    [clones_14d_total]. *)
Theorem aggregate_reads_of_fetched_record (api : Api) (token : string)
  (r record : PyVal) :
  process_repo str_other api token r = Fetched record ->
  exists rd,
    record = PDict rd
    /\ field "stars" rd = int_of (dict_get rd "stars")
    /\ field "forks" rd = int_of (dict_get rd "forks")
    /\ field "watchers" rd = int_of (dict_get rd "watchers")
    /\ field "open_issues" rd = int_of (dict_get rd "open_issues")
    /\ field "commits_total" rd = Z.min (int_of (dict_get rd "commits_total")) CLAMP_HI
    /\ field "release_asset_downloads_total" rd
       = Z.min (int_of (dict_get rd "release_asset_downloads_total")) CLAMP_HI
    /\ traffic_field "views" "count" rd <= int_of (dict_get rd "views_14d_total")
    /\ traffic_field "clones" "count" rd <= int_of (dict_get rd "clones_14d_total").
Proof.
  intros H. apply process_repo_inv in H.
  destruct H as (owner & name & rd & releases & [total per_release] & _ & Hsum & Hrec).
  pose proof (fetch_commits_nonneg str_other api (api_repo_url owner name)) as Hc.
  pose proof (summarize_releases_total_nonneg _ _ _ _ Hsum) as Ht. cbn [fst] in Ht.
  destruct (fetch_commits str_other api (api_repo_url owner name)) as [ct ce].
  destruct (fetch_traffic str_other api token (api_repo_url owner name)) as [tr te].
  cbn [fst] in Hc.
  unfold repo_record, safe_field, clamp_field in Hrec. cbn [py_get bind] in Hrec.
  injection Hrec as <-. eexists. split; [reflexivity|].
  unfold field, traffic_field.
  cbn [dict_get String.eqb Ascii.eqb Bool.eqb int_of dict_or_empty].
  repeat split; try apply clamp_clamp; try (now apply clamp_nonneg_int).
  - apply traffic_count_le_total.
  - apply traffic_count_le_total.
Qed.

Lemma fetched_counters_stable (api : Api) (token : string) (r record : PyVal)
  (k : string) :
  process_repo str_other api token r = Fetched record ->
  In k ["stars"; "forks"; "watchers"; "open_issues"] ->
  field k (dict_or_empty record) = int_of (dict_get (dict_or_empty record) k).
Proof.
  intros H Hk. apply process_repo_inv in H.
  destruct H as (owner & name & rd & releases & [total per_release] & _ & _ & Hrec).
  destruct (fetch_commits str_other api (api_repo_url owner name)) as [ct ce].
  destruct (fetch_traffic str_other api token (api_repo_url owner name)) as [tr te].
  unfold repo_record, safe_field, clamp_field in Hrec. cbn [py_get bind] in Hrec.
  injection Hrec as <-. unfold field. cbn [dict_or_empty].
  cbn [In] in Hk.
  destruct Hk as [<-|[<-|[<-|[<-|[]]]]];
    cbn [dict_get String.eqb Ascii.eqb Bool.eqb int_of]; apply clamp_clamp.
Qed.

Lemma dicts_of_all_dicts (l : list PyVal) :
  Forall (fun x => is_dict x = true) l -> dicts_of l = map dict_or_empty l.
Proof.
  induction 1 as [|x l Hx _ IH]; [reflexivity|].
  destruct x; try discriminate. cbn [dicts_of map dict_or_empty]. now rewrite IH.
Qed.

Lemma fetch_then_aggregate_items (api : Api) (env_token : option string)
  (now : spec_float) (payload : PyVal) (token : string) (items : list PyVal) :
  resolve_token str_other (dict_or_empty payload) [] env_token = Ok token ->
  py_iter (py_or (dict_get (dict_or_empty payload) "repos") (PList [])) = Ok items ->
  fetch_then_aggregate str_other api env_token now payload
  = Ok (PDict
          [ ("generated_at", PFloat now);
            ("repos", PList (records_of (process_repo str_other api token) items));
            ("errors", PList (errors_of (process_repo str_other api token) items));
            ("totals",
              totals_value
                (totals_spec
                   (map dict_or_empty
                      (records_of (process_repo str_other api token) items)))) ]).
Proof.
  intros Ht Hi. unfold fetch_then_aggregate.
  rewrite (fetch_execute_items str_other api env_token now payload [] token items Ht Hi).
  cbn [bind fst].
  set (R := records_of (process_repo str_other api token) items).
  set (E := errors_of (process_repo str_other api token) items).
  assert (HR : dicts_of R = map dict_or_empty R).
  { apply dicts_of_all_dicts, Forall_forall. intros record Hin.
    apply records_of_in in Hin. destruct Hin as (r & _ & Hr).
    exact (fetched_record_is_dict api token r record Hr). }
  rewrite (aggregate_execute_items _ R).
  - rewrite HR. reflexivity.
  - cbn [dict_or_empty dict_get String.eqb Ascii.eqb Bool.eqb].
    unfold py_or. destruct R; reflexivity.
Qed.

(** X20. When fetch-then-aggregate returns, its output has the keys
    [generated_at], [repos], [errors] and [totals], in this order;
    [totals.repos] is the number of entries of [repos] (no fetched record is
    skipped by the aggregation); and [totals.stars], [totals.forks],
    [totals.watchers] and [totals.open_issues] are the plain sums of the
    records' fields, the second clamp changing nothing. *)
Theorem pipeline_totals_over_fetched (api : Api) (env_token : option string)
  (now : spec_float) (payload out : PyVal) :
  fetch_then_aggregate str_other api env_token now payload = Ok out ->
  exists repos errors totals,
    out = PDict [ ("generated_at", PFloat now); ("repos", PList repos);
                  ("errors", PList errors); ("totals", PDict totals) ]
    /\ dict_get totals "repos" = PInt (Z.of_nat (List.length repos))
    /\ forall k, In k ["stars"; "forks"; "watchers"; "open_issues"] ->
         dict_get totals k
         = PInt (Zsum (map (fun record => int_of (dict_get (dict_or_empty record) k))
                         repos)).
Proof.
  intros H.
  destruct (resolve_token str_other (dict_or_empty payload) [] env_token)
    as [token|e] eqn:Ht;
    [|unfold fetch_then_aggregate, fetch_execute in H; rewrite Ht in H; discriminate].
  destruct (py_iter (py_or (dict_get (dict_or_empty payload) "repos") (PList [])))
    as [items|e] eqn:Hi;
    [|unfold fetch_then_aggregate, fetch_execute in H; rewrite Ht, Hi in H;
      discriminate].
  rewrite (fetch_then_aggregate_items api env_token now payload token items Ht Hi) in H.
  injection H as <-.
  set (R := records_of (process_repo str_other api token) items).
  do 3 eexists. split; [reflexivity|]. split.
  - cbn [totals_spec mk_totals map fst snd dict_get String.eqb Ascii.eqb Bool.eqb].
    now rewrite length_map.
  - assert (Hsum : forall k, In k ["stars"; "forks"; "watchers"; "open_issues"] ->
        sum_over (field k) (map dict_or_empty R)
        = Zsum (map (fun record => int_of (dict_get (dict_or_empty record) k)) R)).
    { intros k Hk. unfold sum_over. rewrite map_map. f_equal.
      apply map_ext_in. intros record Hin.
      apply records_of_in in Hin. destruct Hin as (r & _ & Hr).
      exact (fetched_counters_stable api token r record k Hr Hk). }
    intros k Hk. rewrite <- (Hsum k Hk). cbn [In] in Hk.
    destruct Hk as [<-|[<-|[<-|[<-|[]]]]]; reflexivity.
Qed.

(** X21. The token the fetch block works with carries no surrounding
    whitespace.  Without a [params] override it is the payload's trimmed
    token when that is not empty, and the trimmed [GITHUB_TOKEN] otherwise;
    a [params] token other than [None] replaces both, and a false-valued
    one ([""], [0], [False]) leaves the block without a token.  A payload
    token that is neither false-valued nor a str makes the block raise
    [AttributeError], whatever [params] holds. *)
Theorem token_resolution (payload params : pydict) (env_token : option string) :
  match py_or (dict_get payload "token") (PStr "") with
  | PStr s =>
      exists t,
        resolve_token str_other payload params env_token = Ok t
        /\ strip t = t
        /\ (dict_get params "token" = PNone ->
            t = if nonempty (strip s) then strip s
                else strip (match env_token with Some e => e | None => EmptyString end))
        /\ (dict_get params "token" <> PNone ->
            t = strip (py_str str_other (py_or (dict_get params "token") (PStr ""))))
        /\ (dict_get params "token" <> PNone ->
            truthy (dict_get params "token") = false -> t = EmptyString)
  | _ => exists msg,
      resolve_token str_other payload params env_token = Raised (AttributeError msg)
  end.
Proof.
  unfold resolve_token.
  destruct (py_or (dict_get payload "token") (PStr "")) as [| | | |s| |];
    cbn [py_strip bind]; try (eexists; reflexivity).
  destruct (dict_get params "token") as [|b|z|f|s'|l|d] eqn:Hp;
    eexists; (split; [reflexivity|]);
    (split;
     [ try (unfold strip; apply strip_by_idem);
       destruct (nonempty (strip s)); unfold strip; apply strip_by_idem
     | split; [intros Hn; try discriminate; reflexivity|];
       split; [intros Hn; try congruence; reflexivity|];
       intros Hn Hf; try congruence; unfold py_or; rewrite Hf; reflexivity ]).
Qed.

(** X22. The run of the command line never raises in the two blocks: over
    a payload made of a list of str slugs and a str token, fetch-then-
    aggregate returns for every API, and every slug is accounted for, as a
    record counted in [totals.repos] or as an entry of [errors]. *)
Theorem cli_run_returns (api : Api) (env_token : option string)
  (now : spec_float) (repos : list string) (token : string) :
  exists records errors totals,
    fetch_then_aggregate str_other api env_token now
      (PDict [("repos", PList (map PStr repos)); ("token", PStr token)])
    = Ok (PDict [ ("generated_at", PFloat now); ("repos", PList records);
                  ("errors", PList errors); ("totals", PDict totals) ])
    /\ dict_get totals "repos" = PInt (Z.of_nat (List.length records))
    /\ (List.length records + List.length errors = List.length repos)%nat.
Proof.
  set (payload := PDict [("repos", PList (map PStr repos)); ("token", PStr token)]).
  assert (Ht : exists t,
    resolve_token str_other (dict_or_empty payload) [] env_token = Ok t).
  { unfold resolve_token, payload.
    cbn [dict_or_empty dict_get String.eqb Ascii.eqb Bool.eqb].
    unfold py_or. destruct (truthy (PStr token)); cbn [py_strip bind];
      eexists; reflexivity. }
  assert (Hi : py_iter (py_or (dict_get (dict_or_empty payload) "repos") (PList []))
               = Ok (map PStr repos)).
  { unfold payload. cbn [dict_or_empty dict_get String.eqb Ascii.eqb Bool.eqb].
    unfold py_or. destruct repos; reflexivity. }
  destruct Ht as [t Ht].
  rewrite (fetch_then_aggregate_items api env_token now payload t (map PStr repos)
             Ht Hi).
  do 3 eexists. split; [reflexivity|]. split.
  - cbn [totals_spec mk_totals map fst snd dict_get String.eqb Ascii.eqb Bool.eqb].
    now rewrite length_map.
  - rewrite (outcomes_partition str_other api t (map PStr repos)).
    apply length_map.
Qed.

End FurtherFetchProperties.

Lemma record_schema_witness :
  exists record,
    process_repo str_blank api_demo "" (PStr "octo/demo") = Fetched record
    /\ map fst (dict_or_empty record) = RECORD_KEYS
    /\ dict_get (dict_or_empty record) "releases_count" = PInt 1.
Proof.
  eassert (Hrun : process_repo str_blank api_demo "" (PStr "octo/demo") = Fetched _)
    by (vm_compute; reflexivity).
  destruct (record_schema str_blank api_demo "" (PStr "octo/demo") _ Hrun)
    as (owner & name & languages & traffic & per & _ & _ & Hkeys & _).
  eexists. split; [exact Hrun|]. split; [exact Hkeys | reflexivity].
Defined.

Lemma record_strings_bounded_witness :
  exists record,
    process_repo str_blank api_demo "" (PStr "octo/demo") = Fetched record
    /\ str_field_within record "html_url" 256.
Proof.
  eassert (Hrun : process_repo str_blank api_demo "" (PStr "octo/demo") = Fetched _)
    by (vm_compute; reflexivity).
  eexists. split; [exact Hrun|].
  exact (proj1 (record_strings_bounded str_blank api_demo "" (PStr "octo/demo") _ Hrun)).
Defined.

Lemma fetch_output_and_count_witness :
  exists out meta repos,
    fetch_execute str_blank api_demo None now0 (PDict demo_payload) [] = Ok (out, meta)
    /\ dict_get (dict_or_empty out) "repos" = PList repos
    /\ dict_get (dict_or_empty meta) "count" = PInt (Z.of_nat (List.length repos)).
Proof.
  eassert (Hrun : fetch_execute str_blank api_demo None now0 (PDict demo_payload) []
                  = Ok (_, _)) by (vm_compute; reflexivity).
  destruct (fetch_output_and_count str_blank api_demo None now0 _ [] _ _ Hrun)
    as (token & repos & errors & Hout & Hmeta & _).
  do 2 eexists. exists repos. split; [exact Hrun|].
  rewrite Hout, Hmeta. split; reflexivity.
Defined.

Lemma error_entries_bounded_witness :
  exists error,
    process_repo str_blank api_demo "" (PStr "not a slug") = Failed error
    /\ dict_get (dict_or_empty error) "error" = PStr "invalid_repo_slug".
Proof.
  eassert (Hrun : process_repo str_blank api_demo "" (PStr "not a slug") = Failed _)
    by (vm_compute; reflexivity).
  destruct (error_entries_bounded str_blank api_demo "" (PStr "not a slug") _ Hrun)
    as (repo & text & Herr & _ & _ & Hslug).
  eexists. split; [exact Hrun|].
  assert (Hp : parse_repo_slug (py_str str_blank (PStr "not a slug")) = None)
    by (vm_compute; reflexivity).
  rewrite Hp in Hslug. destruct Hslug as [_ Htext].
  rewrite Herr, Htext. reflexivity.
Defined.

Lemma record_without_token_witness :
  exists record,
    process_repo str_blank api_demo "" (PStr "octo/demo") = Fetched record
    /\ dict_get (dict_or_empty record) "traffic" = PDict [].
Proof.
  eassert (Hrun : process_repo str_blank api_demo "" (PStr "octo/demo") = Fetched _)
    by (vm_compute; reflexivity).
  eexists. split; [exact Hrun|].
  exact (proj1 (record_without_token str_blank api_demo "" (PStr "octo/demo") _
                  eq_refl Hrun)).
Defined.

Lemma aggregate_reads_of_fetched_record_witness :
  exists record rd,
    process_repo str_blank api_demo "" (PStr "octo/demo") = Fetched record
    /\ record = PDict rd
    /\ field "stars" rd = int_of (dict_get rd "stars").
Proof.
  eassert (Hrun : process_repo str_blank api_demo "" (PStr "octo/demo") = Fetched _)
    by (vm_compute; reflexivity).
  destruct (aggregate_reads_of_fetched_record str_blank api_demo ""
              (PStr "octo/demo") _ Hrun) as (rd & Hrd & Hstars & _).
  eexists. exists rd. split; [exact Hrun|]. split; [exact Hrd | exact Hstars].
Defined.

Lemma pipeline_totals_over_fetched_witness :
  exists out repos totals,
    fetch_then_aggregate str_blank api_demo None now0 (PDict demo_payload) = Ok out
    /\ dict_get (dict_or_empty out) "repos" = PList repos
    /\ dict_get (dict_or_empty out) "totals" = PDict totals
    /\ dict_get totals "repos" = PInt (Z.of_nat (List.length repos)).
Proof.
  eassert (Hrun : fetch_then_aggregate str_blank api_demo None now0 (PDict demo_payload)
                  = Ok _) by (vm_compute; reflexivity).
  destruct (pipeline_totals_over_fetched str_blank api_demo None now0 _ _ Hrun)
    as (repos & errors & totals & Hout & Hn & _).
  eexists. exists repos, totals. split; [exact Hrun|].
  rewrite Hout. repeat split. exact Hn.
Defined.
